(** * The Android external view embedder: a shallow embedding

    Source: shell/platform/android/external_view_embedder/external_view_embedder.cc

    The embedder interleaves GPU drawn Flutter content with natively hosted
    platform views.  This development embeds its member functions as Rocq
    functions over an explicit record of the object's fields and proves the
    properties the design document states about them.

    Conventions of the embedding.
    - [SkScalar] values (C++ [float]) and the device pixel ratio (C++
      [double]) are exact rationals [Q]; rounding error and NaN of the
      machine formats are outside the model.  The conversion of a scalar
      to [int] in [SkRect::roundOut] saturates as in Skia.  Comparison
      [==] of scalars is [Qeq_bool].
    - View identifiers ([int], [int64_t]) are [Z].
    - [std::unordered_map] is stdpp's [gmap]; [at] on a missing key (which
      throws and terminates the process) is [None]; so is a failed
      [FML_CHECK].
    - Calls on collaborators that are visible outside the object (JNI facade,
      canvases, surface frames) are returned as a list of [Event]s in call
      order.  The thread merger is passed in and returned explicitly. *)

From Stdlib Require Import ZArith QArith Qround Lqa List Bool Lia.
From stdpp Require Import base option list gmap.

Import ListNotations.

Local Open Scope Z_scope.

(** ** Skia geometry *)

Module Sk.

(** [SkISize]: integer width and height. *)
Record ISize := mkISize { isize_width : Z; isize_height : Z }.

(** [SkSize]: scalar width and height. *)
Record Size := mkSize { size_width : Q; size_height : Q }.

(** [SkIRect]: integer left, top, right, bottom. *)
Record IRect := mkIRect { ileft : Z; itop : Z; iright : Z; ibottom : Z }.

(** [SkRect]: scalar left, top, right, bottom. *)
Record Rect := mkRect { fLeft : Q; fTop : Q; fRight : Q; fBottom : Q }.

(** [SkRect::MakeEmpty()]. *)
Definition MakeEmpty : Rect := mkRect 0 0 0 0.

(** [SkRect::MakeXYWH(x, y, w, h)] stores the corner [x + w, y + h]. *)
Definition MakeXYWH (x y w h : Q) : Rect :=
  mkRect x y (x + w)%Q (y + h)%Q.

(** [SkRect::Make(const SkISize&)]. *)
Definition MakeISize (s : ISize) : Rect :=
  mkRect 0 0 (inject_Z (isize_width s)) (inject_Z (isize_height s)).

Definition x (r : Rect) : Q := fLeft r.
Definition y (r : Rect) : Q := fTop r.
Definition width (r : Rect) : Q := (fRight r - fLeft r)%Q.
Definition height (r : Rect) : Q := (fBottom r - fTop r)%Q.

(** Strict comparison of scalars as a boolean. *)
Definition Qltb (a b : Q) : bool := negb (Qle_bool b a).

(** [SkRect::isEmpty()]: [!(fLeft < fRight && fTop < fBottom)]. *)
Definition isEmpty (r : Rect) : bool :=
  negb (Qltb (fLeft r) (fRight r) && Qltb (fTop r) (fBottom r)).

Definition Qmin (a b : Q) : Q := if Qle_bool a b then a else b.
Definition Qmax (a b : Q) : Q := if Qle_bool a b then b else a.

(** [SkRect::join(const SkRect& r)]: an empty argument is ignored, an
    empty receiver is overwritten, otherwise the bounding box is taken. *)
Definition join (this r : Rect) : Rect :=
  if isEmpty r then this
  else if isEmpty this then r
  else mkRect (Qmin (fLeft this) (fLeft r)) (Qmin (fTop this) (fTop r))
              (Qmax (fRight this) (fRight r)) (Qmax (fBottom this) (fBottom r)).

(** [SK_MaxS32FitsInFloat]: the largest [int] that a [float] holds
    exactly. *)
Definition SK_MaxS32FitsInFloat : Z := 2147483520.

(** [sk_float_saturate2int]: the conversion to [int] pins its argument
    to the range from [-SK_MaxS32FitsInFloat] to [SK_MaxS32FitsInFloat]. *)
Definition saturate2int (n : Z) : Z :=
  Z.max (- SK_MaxS32FitsInFloat) (Z.min SK_MaxS32FitsInFloat n).

(** [SkRect::roundOut()]: floor of left and top, ceiling of right and
    bottom, each converted to [int] with saturation. *)
Definition roundOut (r : Rect) : IRect :=
  mkIRect (saturate2int (Qfloor (fLeft r))) (saturate2int (Qfloor (fTop r)))
          (saturate2int (Qceiling (fRight r)))
          (saturate2int (Qceiling (fBottom r))).

(** [SkRect::set(const SkIRect&)] / [SkRect::Make(const SkIRect&)]. *)
Definition MakeIRect (r : IRect) : Rect :=
  mkRect (inject_Z (ileft r)) (inject_Z (itop r))
         (inject_Z (iright r)) (inject_Z (ibottom r)).

(** [operator==] on [SkRect] and [SkSize]: field-wise scalar equality. *)
Definition Rect_eqb (a b : Rect) : bool :=
  Qeq_bool (fLeft a) (fLeft b) && Qeq_bool (fTop a) (fTop b) &&
  Qeq_bool (fRight a) (fRight b) && Qeq_bool (fBottom a) (fBottom b).

Definition Size_eqb (a b : Size) : bool :=
  Qeq_bool (size_width a) (size_width b) &&
  Qeq_bool (size_height a) (size_height b).

(** Specification-side vocabulary for rectangles. *)

(** Same rectangle up to the value of each scalar. *)
Definition Rect_equiv (a b : Rect) : Prop :=
  (fLeft a == fLeft b)%Q /\ (fTop a == fTop b)%Q /\
  (fRight a == fRight b)%Q /\ (fBottom a == fBottom b)%Q.

(** [contains outer inner]: every edge of [inner] lies within [outer]. *)
Definition contains (outer inner : Rect) : Prop :=
  (fLeft outer <= fLeft inner)%Q /\ (fTop outer <= fTop inner)%Q /\
  (fRight inner <= fRight outer)%Q /\ (fBottom inner <= fBottom outer)%Q.

Definition is_integer (q : Q) : Prop := exists n : Z, q = inject_Z n.

(** All four edges are integers. *)
Definition integer_aligned (r : Rect) : Prop :=
  is_integer (fLeft r) /\ is_integer (fTop r) /\
  is_integer (fRight r) /\ is_integer (fBottom r).

(** No edge lies beyond the range of [saturate2int] on the side it is
    rounded to: left and top are not below the least [int] kept, right
    and bottom not above the greatest. *)
Definition fits_int (r : Rect) : Prop :=
  (inject_Z (- SK_MaxS32FitsInFloat) <= fLeft r)%Q /\
  (inject_Z (- SK_MaxS32FitsInFloat) <= fTop r)%Q /\
  (fRight r <= inject_Z SK_MaxS32FitsInFloat)%Q /\
  (fBottom r <= inject_Z SK_MaxS32FitsInFloat)%Q.

End Sk.

(** ** Collaborators that are not part of this translation unit *)

(** Modelled from the spec: [EmbeddedViewParams] (its header is not part
    of the sources).  "Immutable per-frame descriptor: position offset,
    logical size, and an opaque transform/clip descriptor;
    value-comparable for change detection."  The offset is the origin of
    [finalBoundingRect()], the logical size is [sizePoints()]; the opaque
    descriptor is a list of integers. *)
Record EmbeddedViewParams := mkParams {
  finalBoundingRect : Sk.Rect;
  sizePoints : Sk.Size;
  mutatorsStack : list Z
}.

(** [EmbeddedViewParams::operator==]: value comparison of all parts. *)
Definition EmbeddedViewParams_eqb (a b : EmbeddedViewParams) : bool :=
  Sk.Size_eqb (sizePoints a) (sizePoints b) &&
  bool_decide (mutatorsStack a = mutatorsStack b) &&
  Sk.Rect_eqb (finalBoundingRect a) (finalBoundingRect b).

(** Modelled from the spec: the spatial occlusion index ([RTree], built by
    [RTreeFactory]; its sources are not part of this translation unit).
    "Records the bounding rectangle of every drawn primitive as it is
    recorded."  The index is represented by the rectangles it has
    recorded; a fresh instance has none.  Its one query,
    [searchNonOverlappingDrawnRects], is a black box and is a parameter
    of the embedding (see [Section Embedder]). *)
Definition RTree := list Sk.Rect.

Definition RTreeFactory_getInstance : RTree := [].

(** An [SkPicture] is the sequence of bounding rectangles of what was
    drawn; the draw commands themselves are not inspected here. *)
Definition SkPicture := list Sk.Rect.

(** An [SkPictureRecorder]: the cull rectangle and what was recorded,
    and whether it is recording, that is, between [beginRecording] and
    [finishRecordingAsPicture]. *)
Record SkPictureRecorder := mkRecorder {
  cull_rect : Sk.Rect;
  recorded : SkPicture;
  actively_recording : bool
}.

(** A new recorder after [beginRecording(cull, &rtree_factory)]. *)
Definition beginRecording (cull : Sk.Rect) : SkPictureRecorder :=
  mkRecorder cull [] true.

(** The recorder once its recording is finished. *)
Definition finished (r : SkPictureRecorder) : SkPictureRecorder :=
  mkRecorder (cull_rect r) (recorded r) false.

(** [getRecordingCanvas()]: the canvas that draws into the recorder, or
    [nullptr] when the recorder is not recording.  A canvas is
    identified by its recorder. *)
Definition getRecordingCanvas (r : SkPictureRecorder) : option SkPictureRecorder :=
  if actively_recording r then Some r else None.

(** [finishRecordingAsPicture()]: ends the recording and hands out the
    picture.  Finishing a recorder that is not recording is outside the
    recorder's contract; the embedding lets it hand out no picture
    ([nullptr]), which the caller's [FML_CHECK] turns into termination. *)
Definition finishRecordingAsPicture (r : SkPictureRecorder)
    : option SkPicture * SkPictureRecorder :=
  (if actively_recording r then Some (recorded r) else None, finished r).

(** Modelled from the spec: the overlay surface pool ([SurfacePool], not
    part of this translation unit).  "[GetLayer]: returns a free
    previously-created layer if one exists; otherwise creates one via a
    supplied factory and registers it.  [RecycleLayers()]: marks all
    in-use layers free for next frame's acquisitions -- does not destroy
    them."  The pool is the list of layers created so far, of which the
    first [available_layer_index] are in use. *)
Record OverlayLayer := mkLayer { layer_id : Z }.

Record SurfacePool := mkPool {
  layers : list OverlayLayer;
  available_layer_index : nat
}.

Definition SurfacePool_new : SurfacePool := mkPool [] 0.

Definition SurfacePool_GetLayer (p : SurfacePool) : OverlayLayer * SurfacePool :=
  match layers p !! available_layer_index p with
  | Some l => (l, mkPool (layers p) (S (available_layer_index p)))
  | None =>
      let l := mkLayer (Z.of_nat (length (layers p))) in
      (l, mkPool (layers p ++ [l]) (S (length (layers p))))
  end.

Definition SurfacePool_RecycleLayers (p : SurfacePool) : SurfacePool :=
  mkPool (layers p) 0.

(** The layers currently handed out, and the free ones. *)
Definition SurfacePool_in_use (p : SurfacePool) : list OverlayLayer :=
  take (available_layer_index p) (layers p).
Definition SurfacePool_free (p : SurfacePool) : list OverlayLayer :=
  drop (available_layer_index p) (layers p).

(** Modelled from the spec: the thread merge coordinator
    ([fml::RasterThreadMerger], an external collaborator).  "This core only
    consumes four operations (query-merged, extend-lease, merge-with-lease,
    query-on-platform-context)."  The coordinator's state is whether the
    contexts are merged, the remaining lease, and whether the caller runs
    on the platform context; every operation invoked on it is appended to
    [merger_calls]. *)
Inductive MergerCall :=
| CallIsMerged
| CallExtendLeaseTo (lease_term : Z)
| CallMergeWithLease (lease_term : Z)
| CallIsOnPlatformThread.

Record RasterThreadMerger := mkMerger {
  is_merged : bool;
  lease_term : Z;
  on_platform_thread : bool;
  merger_calls : list MergerCall
}.

Definition logged (c : MergerCall) (m : RasterThreadMerger) : RasterThreadMerger :=
  mkMerger (is_merged m) (lease_term m) (on_platform_thread m)
           (merger_calls m ++ [c]).

Definition IsMerged (m : RasterThreadMerger) : bool * RasterThreadMerger :=
  (is_merged m, logged CallIsMerged m).

Definition IsOnPlatformThread (m : RasterThreadMerger) : bool * RasterThreadMerger :=
  (on_platform_thread m, logged CallIsOnPlatformThread m).

Definition ExtendLeaseTo (n : Z) (m : RasterThreadMerger) : RasterThreadMerger :=
  logged (CallExtendLeaseTo n)
    (mkMerger (is_merged m) (Z.max (lease_term m) n)
              (on_platform_thread m) (merger_calls m)).

Definition MergeWithLease (n : Z) (m : RasterThreadMerger) : RasterThreadMerger :=
  logged (CallMergeWithLease n)
    (if is_merged m then m
     else mkMerger true n (on_platform_thread m) (merger_calls m)).

(** A call is a request (it can change the coordinator) rather than a
    query. *)
Definition is_merge_request (c : MergerCall) : bool :=
  match c with CallMergeWithLease _ => true | _ => false end.

(** Calls that leave the object: JNI facade, background canvas and frame,
    overlay canvases and frames. *)
Inductive Event :=
| FlutterViewBeginFrame
| FlutterViewEndFrame
| FlutterViewOnDisplayPlatformView (view_id : Z) (x y w h : Q)
| FlutterViewDisplayOverlaySurface (layer : Z) (x y w h : Q)
| BackgroundSave
| BackgroundClipRectDifference (r : Sk.Rect)
| BackgroundDrawPicture (p : SkPicture)
| BackgroundSubmit
| BackgroundRestore
| OverlayAcquireFrame (layer : Z) (size : Sk.ISize)
| OverlayClear (layer : Z)
| OverlayTranslate (layer : Z) (dx dy : Q)
| OverlayDrawPicture (layer : Z) (p : SkPicture)
| OverlaySubmit (layer : Z).

Inductive PostPrerollResult := kSuccess | kResubmitFrame.

(** ** The embedder object *)

Record AndroidExternalViewEmbedder := mkEmbedder {
  composition_order_ : list Z;
  picture_recorders_ : gmap Z SkPictureRecorder;
  view_rtrees_ : gmap Z RTree;
  view_params_ : gmap Z EmbeddedViewParams;
  frame_size_ : Sk.ISize;
  device_pixel_ratio_ : Q;
  should_run_rasterizer_on_platform_thread_ : bool;
  surface_pool_ : SurfacePool
}.

(** Field updates. *)
Definition with_frame_state (order : list Z) (recs : gmap Z SkPictureRecorder)
    (e : AndroidExternalViewEmbedder) : AndroidExternalViewEmbedder :=
  mkEmbedder order recs (view_rtrees_ e) (view_params_ e) (frame_size_ e)
             (device_pixel_ratio_ e)
             (should_run_rasterizer_on_platform_thread_ e) (surface_pool_ e).

Definition with_should_run (b : bool)
    (e : AndroidExternalViewEmbedder) : AndroidExternalViewEmbedder :=
  mkEmbedder (composition_order_ e) (picture_recorders_ e) (view_rtrees_ e)
             (view_params_ e) (frame_size_ e) (device_pixel_ratio_ e)
             b (surface_pool_ e).

Definition with_surface_pool (p : SurfacePool)
    (e : AndroidExternalViewEmbedder) : AndroidExternalViewEmbedder :=
  mkEmbedder (composition_order_ e) (picture_recorders_ e) (view_rtrees_ e)
             (view_params_ e) (frame_size_ e) (device_pixel_ratio_ e)
             (should_run_rasterizer_on_platform_thread_ e) p.

Definition with_frame_geometry (size : Sk.ISize) (ratio : Q)
    (e : AndroidExternalViewEmbedder) : AndroidExternalViewEmbedder :=
  mkEmbedder (composition_order_ e) (picture_recorders_ e) (view_rtrees_ e)
             (view_params_ e) size ratio
             (should_run_rasterizer_on_platform_thread_ e) (surface_pool_ e).

(** The constructor: empty maps and order, a fresh pool.  The frame size
    and pixel ratio are set by the first [BeginFrame]. *)
Definition AndroidExternalViewEmbedder_new : AndroidExternalViewEmbedder :=
  mkEmbedder [] ∅ ∅ ∅ (Sk.mkISize 0 0) 0%Q false SurfacePool_new.

(** [std::unordered_map::insert]: keeps an existing entry. *)
Definition map_insert_new {V} (k : Z) (v : V) (m : gmap Z V) : gmap Z V :=
  match m !! k with
  | Some _ => m
  | None => <[k := v]> m
  end.

(** A [for] loop over a container whose body can terminate the process. *)
Fixpoint for_each {A S : Type} (body : S -> A -> option S)
    (l : list A) (s : S) : option S :=
  match l with
  | [] => Some s
  | a :: l' =>
      match body s a with
      | Some s' => for_each body l' s'
      | None => None
      end
  end.

(** The elements of a list, each with the number of elements after it:
    a loop [for (j = i; j >= 0; j--)] over [order[i], ..., order[0]]
    meets them with [j = i, ..., 0]. *)
Fixpoint with_countdown {A : Type} (l : list A) : list (nat * A) :=
  match l with
  | [] => []
  | a :: l' => (length l', a) :: with_countdown l'
  end.

(** [PrerollCompositeEmbeddedView], lines 22-42. *)
Definition PrerollCompositeEmbeddedView (view_id : Z)
    (params : EmbeddedViewParams)
    (e : AndroidExternalViewEmbedder) : AndroidExternalViewEmbedder :=
  let rtrees := <[view_id := RTreeFactory_getInstance]> (view_rtrees_ e) in
  let picture_recorder := beginRecording (Sk.MakeISize (frame_size_ e)) in
  let recorders := <[view_id := picture_recorder]> (picture_recorders_ e) in
  let order := composition_order_ e ++ [view_id] in
  let params_map :=
    match view_params_ e !! view_id with
    | Some stored =>
        if EmbeddedViewParams_eqb stored params
        then view_params_ e                               (* line 39 *)
        else <[view_id := params]> (view_params_ e)
    | None => <[view_id := params]> (view_params_ e)
    end in
  mkEmbedder order recorders rtrees params_map (frame_size_ e)
             (device_pixel_ratio_ e)
             (should_run_rasterizer_on_platform_thread_ e) (surface_pool_ e).

(** The same function with the guard of lines 37-40 removed: the params
    are always stored.  Used to state that the guard is an optimisation. *)
Definition PrerollCompositeEmbeddedView_always_store (view_id : Z)
    (params : EmbeddedViewParams)
    (e : AndroidExternalViewEmbedder) : AndroidExternalViewEmbedder :=
  mkEmbedder (composition_order_ e ++ [view_id])
             (<[view_id := beginRecording (Sk.MakeISize (frame_size_ e))]>
                (picture_recorders_ e))
             (<[view_id := RTreeFactory_getInstance]> (view_rtrees_ e))
             (<[view_id := params]> (view_params_ e))
             (frame_size_ e) (device_pixel_ratio_ e)
             (should_run_rasterizer_on_platform_thread_ e) (surface_pool_ e).

(** [CompositeEmbeddedView], lines 45-50: the recording canvas of the
    view's recorder, or [nullptr]. *)
Definition CompositeEmbeddedView (view_id : Z)
    (e : AndroidExternalViewEmbedder) : option SkPictureRecorder :=
  match picture_recorders_ e !! view_id with
  | Some recorder => getRecordingCanvas recorder
  | None => None
  end.

(** Drawing a primitive with bounding rectangle [bounds] through the
    canvas returned by [CompositeEmbeddedView view_id]; without a canvas
    nothing is drawn.  The recorder was begun with the r-tree factory
    whose instance is [view_rtrees_[view_id]], so the rectangle is
    recorded in both. *)
Definition DrawOnCanvas (view_id : Z) (bounds : Sk.Rect)
    (e : AndroidExternalViewEmbedder) : AndroidExternalViewEmbedder :=
  match CompositeEmbeddedView view_id e with
  | Some rec =>
      mkEmbedder (composition_order_ e)
        (<[view_id := mkRecorder (cull_rect rec) (recorded rec ++ [bounds])
                                 true]>
           (picture_recorders_ e))
        (alter (fun t => t ++ [bounds]) view_id (view_rtrees_ e))
        (view_params_ e) (frame_size_ e) (device_pixel_ratio_ e)
        (should_run_rasterizer_on_platform_thread_ e) (surface_pool_ e)
  | None => e
  end.

(** [GetCurrentCanvases], lines 53-60: one entry per view of the
    composition order, [nullptr] for a recorder that is not recording. *)
Definition GetCurrentCanvases (e : AndroidExternalViewEmbedder)
    : option (list (option SkPictureRecorder)) :=
  mapM (fun view_id : Z =>
          match picture_recorders_ e !! view_id with
          | Some recorder => Some (getRecordingCanvas recorder)
          | None => None
          end)
       (composition_order_ e).

(** [GetViewRect], lines 62-71. *)
Definition GetViewRect (view_id : Z)
    (e : AndroidExternalViewEmbedder) : option Sk.Rect :=
  match view_params_ e !! view_id with
  | Some params =>
      Some (Sk.MakeXYWH
              (Sk.x (finalBoundingRect params))
              (Sk.y (finalBoundingRect params))
              (Sk.size_width (sizePoints params) * device_pixel_ratio_ e)%Q
              (Sk.size_height (sizePoints params) * device_pixel_ratio_ e)%Q)
  | None => None
  end.

(** [GetRootCanvas], lines 224-227. *)
Definition GetRootCanvas (e : AndroidExternalViewEmbedder) : option unit := None.

(** [Reset], lines 229-232. *)
Definition Reset (e : AndroidExternalViewEmbedder) : AndroidExternalViewEmbedder :=
  with_frame_state [] ∅ e.

(** [CancelFrame], lines 250-252. *)
Definition CancelFrame (e : AndroidExternalViewEmbedder) : AndroidExternalViewEmbedder :=
  Reset e.

(** [BeginFrame], lines 235-247. *)
Definition BeginFrame (frame_size : Sk.ISize) (device_pixel_ratio : Q)
    (e : AndroidExternalViewEmbedder) (m : RasterThreadMerger)
    : AndroidExternalViewEmbedder * RasterThreadMerger * list Event :=
  let e1 := with_frame_geometry frame_size device_pixel_ratio (Reset e) in
  let '(on_platform, m1) := IsOnPlatformThread m in
  (e1, m1, if on_platform then [FlutterViewBeginFrame] else []).

(** ** Functions that depend on configuration and on the occlusion query *)

(** Working state of [SubmitFrame]: its two local maps, the events issued
    so far, the surface pool, which [CreateSurfaceIfNeeded] updates, and
    the recorders of [picture_recorders_], which finishing a recording
    updates. *)
Record SubmitState := mkSubmit {
  overlay_layers : gmap Z (list Sk.Rect);
  pictures : gmap Z SkPicture;
  events : list Event;
  pool : SurfacePool;
  recorders : gmap Z SkPictureRecorder
}.

Definition emit (evs : list Event) (st : SubmitState) : SubmitState :=
  mkSubmit (overlay_layers st) (pictures st) (events st ++ evs) (pool st)
           (recorders st).

Section Embedder.

(** Constants of the class declaration, which is not part of the
    sources. *)
Variable kMaxLayerAllocations : nat.
Variable kDefaultMergedLeaseDuration : Z.

(** The r-tree's query ([RTree::searchNonOverlappingDrawnRects]). *)
Variable searchNonOverlappingDrawnRects : RTree -> Sk.Rect -> list Sk.Rect.

(** Lines 110-127: one occlusion query and the cap on its result.
    [joined_rect] is declared inside the loop over [j] without an
    initialiser ([SkRect] is a plain struct of four scalars, without
    default constructor), so each query starts from whatever the storage
    of its [joined_rect] holds; that value is the argument
    [joined_rect_init] of the query. *)
Definition occlusion_query (e : AndroidExternalViewEmbedder)
    (joined_rect_init : Sk.Rect) (rtree : RTree) (current_view_id : Z)
    : option (list Sk.Rect) :=
  match GetViewRect current_view_id e with
  | None => None
  | Some current_view_rect =>
      let intersection_rects :=
        searchNonOverlappingDrawnRects rtree current_view_rect in
      let allocation_size := length intersection_rects in
      if (kMaxLayerAllocations <? allocation_size)%nat
      then Some [foldl Sk.join joined_rect_init intersection_rects]
      else Some intersection_rects
  end.

(** Lines 128-139: the body of the loop over [intersection_rects]. *)
Definition place_intersection_rect (view_id : Z) (st : SubmitState)
    (intersection_rect : Sk.Rect) : option SubmitState :=
  let rounded := Sk.MakeIRect (Sk.roundOut intersection_rect) in
  match overlay_layers st !! view_id with
  | None => None
  | Some rects =>
      Some (mkSubmit (<[view_id := rects ++ [rounded]]> (overlay_layers st))
                     (pictures st)
                     (events st ++ [BackgroundClipRectDifference rounded])
                     (pool st) (recorders st))
  end.

(** Lines 108-140: the body of the loop over [j], for one
    [current_view_id = composition_order_[j]]. *)
Definition occlusion_step (e : AndroidExternalViewEmbedder)
    (joined_rect_init : Sk.Rect) (view_id : Z) (rtree : RTree)
    (st : SubmitState) (current_view_id : Z) : option SubmitState :=
  match occlusion_query e joined_rect_init rtree current_view_id with
  | None => None
  | Some intersection_rects =>
      for_each (place_intersection_rect view_id) intersection_rects st
  end.

(** Lines 92-142: the body of the loop over [i].  [earlier_rev] is
    [composition_order_[i-1], ..., composition_order_[0]], so that
    [view_id :: earlier_rev] enumerates [composition_order_[j]] for
    [j = i, ..., 0].  [joined_rect_init i j] is what the storage of
    [joined_rect] holds in the query of slot [i] for view [j]. *)
Definition composite_slot (e : AndroidExternalViewEmbedder)
    (joined_rect_init : nat -> nat -> Sk.Rect)
    (earlier_rev : list Z) (view_id : Z)
    (st : SubmitState) : option SubmitState :=
  let i := length earlier_rev in
  match recorders st !! view_id with
  | None => None
  | Some recorder =>
      match finishRecordingAsPicture recorder with
      | (None, _) => None                                 (* FML_CHECK *)
      | (Some picture, recorder') =>
          let st1 :=
            mkSubmit (map_insert_new view_id [] (overlay_layers st))
                     (map_insert_new view_id picture (pictures st))
                     (events st) (pool st)
                     (<[view_id := recorder']> (recorders st)) in
          match view_rtrees_ e !! view_id with
          | None => None
          | Some rtree =>
              match for_each
                      (fun s (jc : nat * Z) =>
                         occlusion_step e (joined_rect_init i jc.1)
                                        view_id rtree s jc.2)
                      (with_countdown (view_id :: earlier_rev)) st1 with
              | None => None
              | Some st2 =>
                  match pictures st2 !! view_id with
                  | None => None
                  | Some p => Some (emit [BackgroundDrawPicture p] st2)
                  end
              end
          end
      end
  end.

(** The loop over [i] itself. *)
Fixpoint composite_slots (e : AndroidExternalViewEmbedder)
    (joined_rect_init : nat -> nat -> Sk.Rect)
    (earlier_rev : list Z) (todo : list Z)
    (st : SubmitState) : option SubmitState :=
  match todo with
  | [] => Some st
  | view_id :: todo' =>
      match composite_slot e joined_rect_init earlier_rev view_id st with
      | None => None
      | Some st' =>
          composite_slots e joined_rect_init (view_id :: earlier_rev) todo' st'
      end
  end.

(** [CreateSurfaceIfNeeded], lines 170-195, followed by the [Submit] of
    line 163. *)
Definition CreateSurfaceIfNeeded (e : AndroidExternalViewEmbedder)
    (picture : SkPicture) (st : SubmitState) (rect : Sk.Rect)
    : SubmitState :=
  let '(layer, pool') := SurfacePool_GetLayer (pool st) in
  let id := layer_id layer in
  mkSubmit (overlay_layers st) (pictures st)
    (events st ++
       [ OverlayAcquireFrame id (frame_size_ e);
         FlutterViewDisplayOverlaySurface id (Sk.x rect) (Sk.y rect)
                                          (Sk.width rect) (Sk.height rect);
         OverlayClear id;
         OverlayTranslate id (- Sk.x rect)%Q (- Sk.y rect)%Q;
         OverlayDrawPicture id picture;
         OverlaySubmit id ])
    pool' (recorders st).

(** Lines 157-164: the body of the loop over a slot's overlay rects. *)
Definition place_overlay (e : AndroidExternalViewEmbedder) (view_id : Z)
    (st : SubmitState) (overlay_rect : Sk.Rect) : option SubmitState :=
  match pictures st !! view_id with
  | None => None
  | Some picture => Some (CreateSurfaceIfNeeded e picture st overlay_rect)
  end.

(** Lines 147-165: the body of the second loop over the order. *)
Definition place_view (e : AndroidExternalViewEmbedder)
    (st : SubmitState) (view_id : Z) : option SubmitState :=
  match GetViewRect view_id e with
  | None => None
  | Some view_rect =>
      let st1 :=
        emit [FlutterViewOnDisplayPlatformView view_id
                (Sk.x view_rect) (Sk.y view_rect)
                (Sk.width view_rect) (Sk.height view_rect)] st in
      match overlay_layers st1 !! view_id with
      | None => None
      | Some rects => for_each (place_overlay e view_id) rects st1
      end
  end.

(** [SubmitFrame], lines 74-167.  Returns the result, the embedder and
    the calls issued, or [None] when the process is terminated. *)
Definition SubmitFrame (joined_rect_init : nat -> nat -> Sk.Rect)
    (e : AndroidExternalViewEmbedder)
    : option (bool * AndroidExternalViewEmbedder * list Event) :=
  if should_run_rasterizer_on_platform_thread_ e
  then Some (true, e, [])                               (* line 81 *)
  else
    let st0 := mkSubmit ∅ ∅ [BackgroundSave] (surface_pool_ e)
                        (picture_recorders_ e) in
    match composite_slots e joined_rect_init [] (composition_order_ e) st0 with
    | None => None
    | Some st1 =>
        let st2 := emit [BackgroundSubmit] st1 in
        match for_each (place_view e) (composition_order_ e) st2 with
        | None => None
        | Some st3 =>
            Some (true,
                  with_surface_pool (pool st3)
                    (with_frame_state (composition_order_ e) (recorders st3) e),
                  events st3 ++ [BackgroundRestore])
        end
    end.

(** [PostPrerollAction], lines 198-221. *)
Definition PostPrerollAction (e : AndroidExternalViewEmbedder)
    (m : RasterThreadMerger)
    : PostPrerollResult * AndroidExternalViewEmbedder * RasterThreadMerger :=
  let has_platform_views := (0 <? length (composition_order_ e))%nat in
  if has_platform_views then
    let '(merged, m1) := IsMerged m in
    if merged then
      (kSuccess, e, ExtendLeaseTo kDefaultMergedLeaseDuration m1)
    else
      (kResubmitFrame, CancelFrame (with_should_run true e), m1)
  else (kSuccess, e, m).

(** [EndFrame], lines 255-267. *)
Definition EndFrame (should_resubmit_frame : bool)
    (e : AndroidExternalViewEmbedder) (m : RasterThreadMerger)
    : AndroidExternalViewEmbedder * RasterThreadMerger * list Event :=
  let '(e1, m1) :=
    if should_resubmit_frame && should_run_rasterizer_on_platform_thread_ e
    then (with_should_run false e,
          MergeWithLease kDefaultMergedLeaseDuration m)
    else (e, m) in
  let e2 := with_surface_pool (SurfacePool_RecycleLayers (surface_pool_ e1)) e1 in
  let '(on_platform, m2) := IsOnPlatformThread m1 in
  (e2, m2, if on_platform then [FlutterViewEndFrame] else []).

End Embedder.

(** ** Vocabulary of the properties *)

(** A frame's preroll calls, applied in order. *)
Definition preroll_all (calls : list (Z * EmbeddedViewParams))
    (e : AndroidExternalViewEmbedder) : AndroidExternalViewEmbedder :=
  foldl (fun e' c => PrerollCompositeEmbeddedView c.1 c.2 e') e calls.

(** The params of the most recent preroll call for [view_id]. *)
Definition last_params (calls : list (Z * EmbeddedViewParams)) (view_id : Z)
    : option EmbeddedViewParams :=
  last (filter (fun c => c.1 = view_id) calls).*2.

(** Value equality of params, as a proposition. *)
Definition Size_equiv (a b : Sk.Size) : Prop :=
  (Sk.size_width a == Sk.size_width b)%Q /\
  (Sk.size_height a == Sk.size_height b)%Q.

Definition Params_equiv (a b : EmbeddedViewParams) : Prop :=
  Size_equiv (sizePoints a) (sizePoints b) /\
  mutatorsStack a = mutatorsStack b /\
  Sk.Rect_equiv (finalBoundingRect a) (finalBoundingRect b).

(** Two results of [GetViewRect] denote the same rectangle. *)
Definition same_view_rect (a b : option Sk.Rect) : Prop :=
  match a, b with
  | Some r1, Some r2 => Sk.Rect_equiv r1 r2
  | None, None => True
  | _, _ => False
  end.

(** The composition order has no repeated view, and every view of it has
    its params, its r-tree and a recorder that is recording: the
    call-order invariant under which [SubmitFrame] finds every key and
    every recording. *)
Definition slots_present (e : AndroidExternalViewEmbedder) : Prop :=
  NoDup (composition_order_ e) /\
  forall view_id : Z, view_id ∈ composition_order_ e ->
    is_Some (view_params_ e !! view_id) /\
    (exists recorder,
       picture_recorders_ e !! view_id = Some recorder /\
       actively_recording recorder = true) /\
    is_Some (view_rtrees_ e !! view_id).

(** [u] is the union of the non-empty rectangles of [rs]: the least
    rectangle that contains each of them. *)
Definition is_union (u : Sk.Rect) (rs : list Sk.Rect) : Prop :=
  (forall r, r ∈ rs -> Sk.isEmpty r = false -> Sk.contains u r) /\
  (forall b, (forall r, r ∈ rs -> Sk.isEmpty r = false -> Sk.contains b r) ->
             Sk.contains b u).

(** The rectangles that leave [SubmitFrame] towards the background clip
    and the overlay placement: each satisfies [P]. *)
Definition event_rects_satisfy (P : Sk.Rect -> Prop) (ev : Event) : Prop :=
  match ev with
  | BackgroundClipRectDifference r => P r
  | FlutterViewDisplayOverlaySurface _ x y w h =>
      exists r, P r /\ x = Sk.x r /\ y = Sk.y r /\
                w = Sk.width r /\ h = Sk.height r
  | _ => True
  end.

(** Invariant of the loops of [SubmitFrame]: the rectangles issued so far
    and the rectangles held for the overlays satisfy [P]. *)
Definition rects_satisfy (P : Sk.Rect -> Prop) (st : SubmitState) : Prop :=
  Forall (event_rects_satisfy P) (events st) /\
  forall (v : Z) rects, overlay_layers st !! v = Some rects -> Forall P rects.

(** The clip rectangles of a trace, in order. *)
Definition clip_rects (evs : list Event) : list Sk.Rect :=
  omap (fun ev => match ev with
                  | BackgroundClipRectDifference r => Some r
                  | _ => None
                  end) evs.

(** The overlay layers placed by a trace, in order. *)
Definition overlay_placements (evs : list Event) : list Z :=
  omap (fun ev => match ev with
                  | FlutterViewDisplayOverlaySurface layer _ _ _ _ => Some layer
                  | _ => None
                  end) evs.

Section Vocabulary.

Variable kMaxLayerAllocations : nat.
Variable searchNonOverlappingDrawnRects : RTree -> Sk.Rect -> list Sk.Rect.

(** [r0] is a rectangle of the (capped) result of one of the frame's
    occlusion queries, before rounding: the query of slot [i] for the
    view of slot [j <= i]. *)
Definition is_query_result (joined_rect_init : nat -> nat -> Sk.Rect)
    (e : AndroidExternalViewEmbedder) (r0 : Sk.Rect) : Prop :=
  exists (i j : nat) (view_id current_view_id : Z) (rtree : RTree)
         (rs : list Sk.Rect),
    composition_order_ e !! i = Some view_id /\
    composition_order_ e !! j = Some current_view_id /\
    (j <= i)%nat /\
    view_rtrees_ e !! view_id = Some rtree /\
    occlusion_query kMaxLayerAllocations searchNonOverlappingDrawnRects
      e (joined_rect_init i j) rtree current_view_id = Some rs /\
    r0 ∈ rs.

(** [r] is such a rectangle rounded outward: its edges are integers, and
    it contains the rectangle it was rounded from when that one fits the
    range of [int]. *)
Definition rounded_query_result (joined_rect_init : nat -> nat -> Sk.Rect)
    (e : AndroidExternalViewEmbedder) (r : Sk.Rect) : Prop :=
  exists r0, is_query_result joined_rect_init e r0 /\
             r = Sk.MakeIRect (Sk.roundOut r0) /\
             Sk.integer_aligned r /\
             (Sk.fits_int r0 -> Sk.contains r r0).

End Vocabulary.

(** ** Concrete configurations used in examples *)

(** The r-tree query of the examples returns every recorded rectangle. *)
Definition search_all (t : RTree) (q : Sk.Rect) : list Sk.Rect := t.

Definition params_a : EmbeddedViewParams :=
  mkParams (Sk.mkRect 10 20 110 70) (Sk.mkSize 100 50) [].

(** The same values with other representations of the scalars. *)
Definition params_a' : EmbeddedViewParams :=
  mkParams (Sk.mkRect (20 # 2) 20 110 70) (Sk.mkSize (200 # 2) 50) [].

Definition merger_unmerged : RasterThreadMerger := mkMerger false 0 false [].
Definition merger_merged : RasterThreadMerger := mkMerger true 3 true [].

(** A frame of 800 x 600 at pixel ratio 2, begun on the raster thread. *)
Definition frame_begun : AndroidExternalViewEmbedder :=
  (BeginFrame (Sk.mkISize 800 600) 2 AndroidExternalViewEmbedder_new
              merger_unmerged).1.1.

(** One platform view (id 7) prerolled. *)
Definition frame_one_view : AndroidExternalViewEmbedder :=
  PrerollCompositeEmbeddedView 7 params_a frame_begun.

(** One platform view, and one primitive drawn above it. *)
Definition frame_one_overlay : AndroidExternalViewEmbedder :=
  DrawOnCanvas 7 (Sk.mkRect (3 # 10) (1 # 2) (31 # 10) (47 # 10)) frame_one_view.

(** One platform view, and three primitives drawn above it. *)
Definition three_rects : list Sk.Rect :=
  [Sk.mkRect 10 20 30 40; Sk.mkRect 50 20 70 40; Sk.mkRect 90 20 110 40].

Definition frame_three_overlays : AndroidExternalViewEmbedder :=
  foldl (fun e r => DrawOnCanvas 7 r e) frame_one_view three_rects.

(** A possible content of the storage of the local [joined_rect]. *)
Definition stale_rect : Sk.Rect := Sk.mkRect 0 0 500 500.

(** The storage of [joined_rect] holds [stale_rect] in every query. *)
Definition stale_storage : nat -> nat -> Sk.Rect := fun _ _ => stale_rect.

(** The storage of [joined_rect] holds an empty rectangle in every
    query. *)
Definition empty_storage : nat -> nat -> Sk.Rect := fun _ _ => Sk.MakeEmpty.

(** The storage of [joined_rect] holds a rectangle whose right edge is
    beyond the range of [int]. *)
Definition wide_rect : Sk.Rect := Sk.mkRect 0 0 (inject_Z (2 ^ 32)) 10.
Definition wide_storage : nat -> nat -> Sk.Rect := fun _ _ => wide_rect.

(** A frame as wide as [int] allows (2147483647 x 600), one platform
    view, and one primitive drawn above it that reaches the right edge of
    the frame. *)
Definition frame_wide_overlay : AndroidExternalViewEmbedder :=
  DrawOnCanvas 7 (Sk.mkRect 10 20 2147483647 40)
    (PrerollCompositeEmbeddedView 7 params_a
       (BeginFrame (Sk.mkISize 2147483647 600) 2
                   AndroidExternalViewEmbedder_new merger_unmerged).1.1).

(** ** The occlusion queries of a frame, by index *)

Section QueriesByIndex.

Variable kMaxLayerAllocations : nat.
Variable searchNonOverlappingDrawnRects : RTree -> Sk.Rect -> list Sk.Rect.

(** The rectangles slot [i] clips out of the background, as lines 92-140
    index them: the r-tree of [composition_order_[i]] is queried with
    the view rectangle of [composition_order_[j]] for [j = i, ..., 0],
    each result is capped, starting [joined_rect] from
    [joined_rect_init i j], and every rectangle is rounded outward. *)
Definition slot_clip_rects (joined_rect_init : nat -> nat -> Sk.Rect)
    (e : AndroidExternalViewEmbedder) (i : nat) : option (list Sk.Rect) :=
  view_id ← composition_order_ e !! i;
  rtree ← view_rtrees_ e !! view_id;
  results ← mapM (fun j : nat =>
                    current_view_id ← composition_order_ e !! j;
                    occlusion_query kMaxLayerAllocations
                      searchNonOverlappingDrawnRects e (joined_rect_init i j)
                      rtree current_view_id)
                 (reverse (seq 0 (S i)));
  Some ((fun r => Sk.MakeIRect (Sk.roundOut r)) <$> concat results).

(** The rectangles of all slots, for [i = 0, ..., size - 1]. *)
Definition frame_clip_rects (joined_rect_init : nat -> nat -> Sk.Rect)
    (e : AndroidExternalViewEmbedder) : option (list Sk.Rect) :=
  slots ← mapM (slot_clip_rects joined_rect_init e)
               (seq 0 (length (composition_order_ e)));
  Some (concat slots).

End QueriesByIndex.

(** ** Sequences of calls on the embedder *)

(** The calls a frame driver makes.  The thread merger is owned by the
    driver and can change between calls, so each call that receives it
    carries the merger it is given.  [OpDraw] is a primitive drawn through
    the canvas that [CompositeEmbeddedView] returned; [OpSubmitFrame]
    carries the content of the storage of the local [joined_rect] in
    each of its queries. *)
Inductive Op :=
| OpBeginFrame (frame_size : Sk.ISize) (device_pixel_ratio : Q)
               (m : RasterThreadMerger)
| OpPreroll (view_id : Z) (params : EmbeddedViewParams)
| OpDraw (view_id : Z) (bounds : Sk.Rect)
| OpPostPrerollAction (m : RasterThreadMerger)
| OpSubmitFrame (joined_rect_init : nat -> nat -> Sk.Rect)
| OpEndFrame (should_resubmit_frame : bool) (m : RasterThreadMerger)
| OpCancelFrame.

(** One call; [None] when it terminates the process. *)
Definition step (kMax : nat) (kD : Z)
    (search : RTree -> Sk.Rect -> list Sk.Rect)
    (e : AndroidExternalViewEmbedder) (op : Op)
    : option AndroidExternalViewEmbedder :=
  match op with
  | OpBeginFrame size ratio m => Some (BeginFrame size ratio e m).1.1
  | OpPreroll view_id params =>
      Some (PrerollCompositeEmbeddedView view_id params e)
  | OpDraw view_id bounds => Some (DrawOnCanvas view_id bounds e)
  | OpPostPrerollAction m => Some (PostPrerollAction kD e m).1.2
  | OpSubmitFrame joined_rect_init =>
      match SubmitFrame kMax search joined_rect_init e with
      | Some (_, e', _) => Some e'
      | None => None
      end
  | OpEndFrame should_resubmit_frame m =>
      Some (EndFrame kD should_resubmit_frame e m).1.1
  | OpCancelFrame => Some (CancelFrame e)
  end.

(** A sequence of calls, in order. *)
Definition run (kMax : nat) (kD : Z)
    (search : RTree -> Sk.Rect -> list Sk.Rect)
    (ops : list Op) (e : AndroidExternalViewEmbedder)
    : option AndroidExternalViewEmbedder :=
  for_each (step kMax kD search) ops e.

(** The view ids prerolled by a sequence of calls. *)
Definition prerolled_ids (ops : list Op) : list Z :=
  omap (fun op => match op with
                  | OpPreroll view_id _ => Some view_id
                  | _ => None
                  end) ops.

(** What every sequence of calls keeps: the views of the composition
    order are exactly those with a recorder, each has params and an
    r-tree, and the params map and the r-tree map have the same keys. *)
Definition embedder_invariant (e : AndroidExternalViewEmbedder) : Prop :=
  (forall v : Z, is_Some (picture_recorders_ e !! v) <->
                 v ∈ composition_order_ e) /\
  (forall v : Z, v ∈ composition_order_ e -> is_Some (view_params_ e !! v)) /\
  (forall v : Z, is_Some (view_rtrees_ e !! v) <->
                 is_Some (view_params_ e !! v)).

(** ** Reading a trace of [SubmitFrame] *)

(** Position and size of a rectangle as the JNI facade receives them. *)
Definition xywh (r : Sk.Rect) : Q * Q * Q * Q :=
  (Sk.x r, Sk.y r, Sk.width r, Sk.height r).

(** The platform views placed by a trace, in order. *)
Definition platform_view_placements (evs : list Event)
    : list (Z * (Q * Q * Q * Q)) :=
  omap (fun ev => match ev with
                  | FlutterViewOnDisplayPlatformView v x y w h =>
                      Some (v, (x, y, w, h))
                  | _ => None
                  end) evs.

(** Where the overlay surfaces of a trace are placed, in order. *)
Definition overlay_rect_placements (evs : list Event) : list (Q * Q * Q * Q) :=
  omap (fun ev => match ev with
                  | FlutterViewDisplayOverlaySurface _ x y w h =>
                      Some (x, y, w, h)
                  | _ => None
                  end) evs.

(** Calls on the background canvas between its save and its submit. *)
Definition is_background_drawing (ev : Event) : bool :=
  match ev with
  | BackgroundClipRectDifference _ | BackgroundDrawPicture _ => true
  | _ => false
  end.

(** Calls on the JNI facade for placement, and on overlay surfaces. *)
Definition is_placement_call (ev : Event) : bool :=
  match ev with
  | FlutterViewOnDisplayPlatformView _ _ _ _ _
  | FlutterViewDisplayOverlaySurface _ _ _ _ _
  | OverlayAcquireFrame _ _ | OverlayClear _ | OverlayTranslate _ _ _
  | OverlayDrawPicture _ _ | OverlaySubmit _ => true
  | _ => false
  end.

(** The calls made for one overlay surface (lines 178-193 and 163). *)
Definition overlay_calls (layer : Z) (frame_size : Sk.ISize)
    (picture : SkPicture) (rect : Sk.Rect) : list Event :=
  [ OverlayAcquireFrame layer frame_size;
    FlutterViewDisplayOverlaySurface layer (Sk.x rect) (Sk.y rect)
                                     (Sk.width rect) (Sk.height rect);
    OverlayClear layer;
    OverlayTranslate layer (- Sk.x rect)%Q (- Sk.y rect)%Q;
    OverlayDrawPicture layer picture;
    OverlaySubmit layer ].

(** ** The merge-request protocol *)

Lemma Reset_composition_order e : composition_order_ (Reset e) = [].
Proof. reflexivity. Qed.

Lemma CancelFrame_is_Reset e : CancelFrame e = Reset e.
Proof. reflexivity. Qed.

Lemma PostPrerollAction_empty kD e m :
  composition_order_ e = [] -> PostPrerollAction kD e m = (kSuccess, e, m).
Proof. unfold PostPrerollAction. intros ->. reflexivity. Qed.

Lemma PostPrerollAction_merged kD e m :
  composition_order_ e <> [] -> is_merged m = true ->
  PostPrerollAction kD e m =
    (kSuccess, e, ExtendLeaseTo kD (logged CallIsMerged m)).
Proof.
  unfold PostPrerollAction, IsMerged. intros Hne Hm.
  destruct (composition_order_ e) as [|v order]; [congruence|].
  cbn [length Nat.ltb Nat.leb]. rewrite Hm. reflexivity.
Qed.

Lemma PostPrerollAction_unmerged kD e m :
  composition_order_ e <> [] -> is_merged m = false ->
  PostPrerollAction kD e m =
    (kResubmitFrame, CancelFrame (with_should_run true e),
     logged CallIsMerged m).
Proof.
  unfold PostPrerollAction, IsMerged. intros Hne Hm.
  destruct (composition_order_ e) as [|v order]; [congruence|].
  cbn [length Nat.ltb Nat.leb]. rewrite Hm. reflexivity.
Qed.

(** C1: [PostPrerollAction] returns [kResubmitFrame] exactly when the
    composition order is non-empty and the threads are not merged, and the
    composition order is empty after such a return; when the composition
    order is empty it returns [kSuccess] whatever the merge state, and
    neither the embedder nor the merger is touched (no operation of the
    merger is invoked). *)
Theorem PostPrerollAction_resubmit_iff (kD : Z)
    (e : AndroidExternalViewEmbedder) (m : RasterThreadMerger) :
  let '(result, e', m') := PostPrerollAction kD e m in
  (result = kResubmitFrame <->
     composition_order_ e <> [] /\ is_merged m = false) /\
  (result = kResubmitFrame -> composition_order_ e' = []) /\
  (composition_order_ e = [] -> result = kSuccess /\ e' = e /\ m' = m).
Proof.
  destruct (composition_order_ e) as [|v order] eqn:Horder.
  - rewrite PostPrerollAction_empty by assumption.
    repeat split; try discriminate; tauto.
  - assert (Hne : composition_order_ e <> []) by congruence.
    destruct (is_merged m) eqn:Hm.
    + rewrite PostPrerollAction_merged by assumption.
      repeat split; try discriminate; intros [_ Hf]; discriminate.
    + rewrite PostPrerollAction_unmerged by assumption.
      repeat split; try discriminate; auto.
Qed.

(** The claim of C2 fails on the code: with one view prerolled and the
    threads unmerged, [PostPrerollAction] returns [kResubmitFrame] and the
    only operation it invokes on the merger is the query [IsMerged]; no
    merge is requested and the threads stay unmerged. *)
Lemma PostPrerollAction_requests_no_merge :
  composition_order_ frame_one_view <> [] /\
  is_merged merger_unmerged = false /\
  let '(result, _, m') := PostPrerollAction 10 frame_one_view merger_unmerged in
  result = kResubmitFrame /\
  merger_calls m' = [CallIsMerged] /\
  existsb is_merge_request (merger_calls m') = false /\
  is_merged m' = false.
Proof. vm_compute. repeat split; discriminate. Qed.

(** C2 (amended): when the composition order is non-empty and the threads
    are unmerged, [PostPrerollAction] only queries the merger, marks the
    frame for resubmission, cancels the frame as [CancelFrame] does and
    returns [kResubmitFrame]; the merge is requested by the following
    [EndFrame(true, ...)], which calls [MergeWithLease] with the default
    lease and clears the mark. *)
Theorem PostPrerollAction_defers_merge_to_EndFrame (kD : Z)
    (e : AndroidExternalViewEmbedder) (m : RasterThreadMerger) :
  composition_order_ e <> [] -> is_merged m = false ->
  let '(result, e', m') := PostPrerollAction kD e m in
  result = kResubmitFrame /\
  e' = CancelFrame (with_should_run true e) /\
  should_run_rasterizer_on_platform_thread_ e' = true /\
  composition_order_ e' = [] /\ picture_recorders_ e' = ∅ /\
  merger_calls m' = merger_calls m ++ [CallIsMerged] /\
  is_merged m' = false /\ lease_term m' = lease_term m /\
  let '(e'', m'', _) := EndFrame kD true e' m' in
  should_run_rasterizer_on_platform_thread_ e'' = false /\
  merger_calls m'' =
    merger_calls m ++
      [CallIsMerged; CallMergeWithLease kD; CallIsOnPlatformThread] /\
  is_merged m'' = true /\ lease_term m'' = kD.
Proof.
  intros Hne Hm. rewrite PostPrerollAction_unmerged by assumption.
  unfold EndFrame, MergeWithLease, IsOnPlatformThread, logged. cbn.
  rewrite Hm. cbn. rewrite <- !app_assoc. cbn.
  repeat split; reflexivity.
Qed.

Lemma PostPrerollAction_defers_merge_to_EndFrame_witness :
  let '(result, e', m') := PostPrerollAction 10 frame_one_view merger_unmerged in
  result = kResubmitFrame /\
  e' = CancelFrame (with_should_run true frame_one_view) /\
  should_run_rasterizer_on_platform_thread_ e' = true /\
  composition_order_ e' = [] /\ picture_recorders_ e' = ∅ /\
  merger_calls m' = merger_calls merger_unmerged ++ [CallIsMerged] /\
  is_merged m' = false /\ lease_term m' = lease_term merger_unmerged /\
  let '(e'', m'', _) := EndFrame 10 true e' m' in
  should_run_rasterizer_on_platform_thread_ e'' = false /\
  merger_calls m'' =
    merger_calls merger_unmerged ++
      [CallIsMerged; CallMergeWithLease 10; CallIsOnPlatformThread] /\
  is_merged m'' = true /\ lease_term m'' = 10.
Proof.
  apply (PostPrerollAction_defers_merge_to_EndFrame 10 frame_one_view
           merger_unmerged).
  - vm_compute. discriminate.
  - reflexivity.
Defined.

(** ** Frame boundaries *)

(** C4: when a resubmission is pending (the mark is set), [SubmitFrame]
    returns [true] and does nothing else: it issues no call on the
    background canvas, the JNI facade or an overlay, takes no layer from
    the pool, and leaves the embedder as it was. *)
Theorem SubmitFrame_noop_when_resubmitting (kMax : nat)
    (search : RTree -> Sk.Rect -> list Sk.Rect)
    (joined_rect_init : nat -> nat -> Sk.Rect)
    (e : AndroidExternalViewEmbedder) :
  should_run_rasterizer_on_platform_thread_ e = true ->
  SubmitFrame kMax search joined_rect_init e = Some (true, e, []).
Proof. unfold SubmitFrame. intros ->. reflexivity. Qed.

Lemma SubmitFrame_noop_when_resubmitting_witness :
  let e := (PostPrerollAction 10 frame_three_overlays merger_unmerged).1.2 in
  should_run_rasterizer_on_platform_thread_ e = true /\
  SubmitFrame 2 search_all stale_storage e = Some (true, e, []).
Proof.
  split.
  - reflexivity.
  - apply (SubmitFrame_noop_when_resubmitting 2 search_all stale_storage).
    reflexivity.
Defined.

Lemma SurfacePool_RecycleLayers_spec (p : SurfacePool) :
  layers (SurfacePool_RecycleLayers p) = layers p /\
  SurfacePool_in_use (SurfacePool_RecycleLayers p) = [] /\
  SurfacePool_free (SurfacePool_RecycleLayers p) = layers p.
Proof. repeat split. Qed.

(** C7: [EndFrame] always recycles the overlay layers, whatever the mark,
    the [should_resubmit_frame] argument and the merge state: the pool of
    the resulting embedder is the recycled pool, in which every layer
    created so far is still present and free, and none is in use. *)
Theorem EndFrame_always_recycles (kD : Z) (should_resubmit_frame : bool)
    (e : AndroidExternalViewEmbedder) (m : RasterThreadMerger) :
  let '(e', _, _) := EndFrame kD should_resubmit_frame e m in
  surface_pool_ e' = SurfacePool_RecycleLayers (surface_pool_ e) /\
  layers (surface_pool_ e') = layers (surface_pool_ e) /\
  SurfacePool_in_use (surface_pool_ e') = [] /\
  SurfacePool_free (surface_pool_ e') = layers (surface_pool_ e).
Proof.
  unfold EndFrame.
  destruct (should_resubmit_frame &&
            should_run_rasterizer_on_platform_thread_ e);
    cbn; repeat split.
Qed.

(** C10: [CancelFrame] is [Reset], and [Reset] clears the composition
    order and the recorders and nothing else; in particular the params map
    and the r-tree map are kept.  So they survive a new frame ([BeginFrame]) and a
    resubmission cancel ([PostPrerollAction]), and a preroll in a later
    frame whose params are value-equal to those stored earlier takes the
    early return and keeps the stored entry. *)
Theorem Reset_keeps_params_and_rtrees (kD : Z)
    (e : AndroidExternalViewEmbedder) (m : RasterThreadMerger)
    (size : Sk.ISize) (ratio : Q) :
  CancelFrame e = Reset e /\
  composition_order_ (Reset e) = [] /\
  picture_recorders_ (Reset e) = ∅ /\
  view_params_ (Reset e) = view_params_ e /\
  view_rtrees_ (Reset e) = view_rtrees_ e /\
  frame_size_ (Reset e) = frame_size_ e /\
  device_pixel_ratio_ (Reset e) = device_pixel_ratio_ e /\
  should_run_rasterizer_on_platform_thread_ (Reset e) =
    should_run_rasterizer_on_platform_thread_ e /\
  surface_pool_ (Reset e) = surface_pool_ e /\
  view_params_ (BeginFrame size ratio e m).1.1 = view_params_ e /\
  view_rtrees_ (BeginFrame size ratio e m).1.1 = view_rtrees_ e /\
  view_params_ (PostPrerollAction kD e m).1.2 = view_params_ e /\
  view_rtrees_ (PostPrerollAction kD e m).1.2 = view_rtrees_ e /\
  (forall view_id stored params,
     view_params_ e !! view_id = Some stored ->
     EmbeddedViewParams_eqb stored params = true ->
     view_params_
       (PrerollCompositeEmbeddedView view_id params
          (BeginFrame size ratio e m).1.1) = view_params_ e).
Proof.
  repeat split.
  - unfold PostPrerollAction.
    destruct (0 <? length (composition_order_ e))%nat; [|reflexivity].
    cbn. destruct (is_merged m); reflexivity.
  - unfold PostPrerollAction.
    destruct (0 <? length (composition_order_ e))%nat; [|reflexivity].
    cbn. destruct (is_merged m); reflexivity.
  - intros view_id stored params Hstored Heq.
    unfold PrerollCompositeEmbeddedView, BeginFrame. cbn.
    rewrite Hstored, Heq. reflexivity.
Qed.

(** The early return across frames, on values: the params stored by a
    preroll of frame 1 are kept by a value-equal preroll of frame 2, also
    after the first frame was cancelled for resubmission. *)
Example stored_params_match_in_next_frame :
  let e1 := (PostPrerollAction 10 frame_one_view merger_unmerged).1.2 in
  let e2 := (BeginFrame (Sk.mkISize 800 600) 2 e1 merger_merged).1.1 in
  view_params_ e1 !! 7 = Some params_a /\
  view_params_ (PrerollCompositeEmbeddedView 7 params_a' e2) !! 7
    = Some params_a /\
  params_a' <> params_a.
Proof. vm_compute. repeat split. discriminate. Qed.

(** ** Preroll *)

Lemma preroll_all_snoc calls view_id params e :
  preroll_all (calls ++ [(view_id, params)]) e =
  PrerollCompositeEmbeddedView view_id params (preroll_all calls e).
Proof. unfold preroll_all. rewrite foldl_snoc. reflexivity. Qed.

Lemma Preroll_composition_order view_id params e :
  composition_order_ (PrerollCompositeEmbeddedView view_id params e) =
  composition_order_ e ++ [view_id].
Proof. reflexivity. Qed.

Lemma Preroll_picture_recorders view_id params e :
  picture_recorders_ (PrerollCompositeEmbeddedView view_id params e) =
  <[view_id := beginRecording (Sk.MakeISize (frame_size_ e))]>
    (picture_recorders_ e).
Proof. reflexivity. Qed.

Lemma preroll_all_composition_order calls e :
  composition_order_ (preroll_all calls e) = composition_order_ e ++ calls.*1.
Proof.
  induction calls as [|[view_id params] calls IH] using rev_ind.
  - cbn. rewrite app_nil_r. reflexivity.
  - rewrite preroll_all_snoc, Preroll_composition_order, IH, fmap_app.
    cbn. rewrite app_assoc. reflexivity.
Qed.

Lemma preroll_all_picture_recorders calls e (view_id : Z) :
  is_Some (picture_recorders_ (preroll_all calls e) !! view_id) <->
  is_Some (picture_recorders_ e !! view_id) \/ view_id ∈ calls.*1.
Proof.
  induction calls as [|[v params] calls IH] using rev_ind.
  - cbn. rewrite elem_of_nil. tauto.
  - rewrite preroll_all_snoc, Preroll_picture_recorders.
    rewrite lookup_insert_is_Some, IH, fmap_app, elem_of_app.
    cbn. rewrite list_elem_of_singleton.
    destruct (decide (v = view_id)); intuition congruence.
Qed.

(** C6: after [BeginFrame] the composition order is empty, and after any
    sequence of preroll calls of the frame it is the sequence of view ids
    of those calls, in call order and with repeats; a view id has an entry
    in the composition order, or a recorder, only if it was prerolled in
    this frame. *)
Theorem composition_order_is_preroll_sequence
    (size : Sk.ISize) (ratio : Q)
    (e : AndroidExternalViewEmbedder) (m : RasterThreadMerger)
    (calls : list (Z * EmbeddedViewParams)) :
  let e0 := (BeginFrame size ratio e m).1.1 in
  composition_order_ e0 = [] /\
  composition_order_ (preroll_all calls e0) = calls.*1 /\
  length (composition_order_ (preroll_all calls e0)) = length calls /\
  (forall view_id : Z,
     view_id ∈ composition_order_ (preroll_all calls e0) <->
     view_id ∈ calls.*1) /\
  (forall view_id : Z,
     is_Some (picture_recorders_ (preroll_all calls e0) !! view_id) <->
     view_id ∈ calls.*1).
Proof.
  cbn zeta.
  assert (Horder : composition_order_ (BeginFrame size ratio e m).1.1 = [])
    by reflexivity.
  assert (Hrec : picture_recorders_ (BeginFrame size ratio e m).1.1 = ∅)
    by reflexivity.
  assert (Hall : composition_order_
                   (preroll_all calls (BeginFrame size ratio e m).1.1)
                 = calls.*1).
  { rewrite preroll_all_composition_order, Horder. reflexivity. }
  split; [exact Horder|]. split; [exact Hall|]. split; [|split].
  - rewrite Hall, length_fmap. reflexivity.
  - intros view_id. rewrite Hall. reflexivity.
  - intros view_id. rewrite preroll_all_picture_recorders, Hrec, lookup_empty.
    split; [intros [[? ?]|?]; [discriminate|assumption] | auto].
Qed.

(** Value equality of params. *)

Lemma Rect_eqb_equiv a b : Sk.Rect_eqb a b = true -> Sk.Rect_equiv a b.
Proof.
  unfold Sk.Rect_eqb, Sk.Rect_equiv. rewrite !andb_true_iff, !Qeq_bool_iff.
  tauto.
Qed.

Lemma Size_eqb_equiv a b : Sk.Size_eqb a b = true -> Size_equiv a b.
Proof.
  unfold Sk.Size_eqb, Size_equiv. rewrite !andb_true_iff, !Qeq_bool_iff.
  tauto.
Qed.

Lemma EmbeddedViewParams_eqb_equiv a b :
  EmbeddedViewParams_eqb a b = true -> Params_equiv a b.
Proof.
  unfold EmbeddedViewParams_eqb, Params_equiv.
  rewrite !andb_true_iff, bool_decide_eq_true.
  intros [[Hs Hm] Hr]. auto using Rect_eqb_equiv, Size_eqb_equiv.
Qed.

Lemma Params_equiv_refl a : Params_equiv a a.
Proof. unfold Params_equiv, Size_equiv, Sk.Rect_equiv. repeat split; reflexivity. Qed.

(** What [PrerollCompositeEmbeddedView] leaves in the params map. *)
Lemma Preroll_view_params_same view_id params e :
  exists stored,
    view_params_ (PrerollCompositeEmbeddedView view_id params e) !! view_id
      = Some stored /\ Params_equiv stored params.
Proof.
  unfold PrerollCompositeEmbeddedView. cbn.
  destruct (view_params_ e !! view_id) as [stored|] eqn:Hlookup.
  - destruct (EmbeddedViewParams_eqb stored params) eqn:Heq.
    + exists stored. split; [assumption|].
      apply EmbeddedViewParams_eqb_equiv. assumption.
    + exists params. rewrite lookup_insert_eq. split; [reflexivity|].
      apply Params_equiv_refl.
  - exists params. rewrite lookup_insert_eq. split; [reflexivity|].
    apply Params_equiv_refl.
Qed.

Lemma Preroll_view_params_other view_id params e (v : Z) :
  v <> view_id ->
  view_params_ (PrerollCompositeEmbeddedView view_id params e) !! v
    = view_params_ e !! v.
Proof.
  intros Hne. unfold PrerollCompositeEmbeddedView. cbn.
  destruct (view_params_ e !! view_id) as [stored|].
  - destruct (EmbeddedViewParams_eqb stored params); [reflexivity|].
    rewrite lookup_insert_ne by congruence. reflexivity.
  - rewrite lookup_insert_ne by congruence. reflexivity.
Qed.

Lemma last_params_snoc calls v params (view_id : Z) :
  last_params (calls ++ [(v, params)]) view_id =
  if decide (v = view_id) then Some params else last_params calls view_id.
Proof.
  unfold last_params. rewrite filter_app, fmap_app.
  rewrite filter_cons, filter_nil. cbn.
  destruct (decide (v = view_id)).
  - cbn. apply last_snoc.
  - cbn. rewrite app_nil_r. reflexivity.
Qed.

Lemma preroll_all_view_params calls e (view_id : Z) params :
  last_params calls view_id = Some params ->
  exists stored,
    view_params_ (preroll_all calls e) !! view_id = Some stored /\
    Params_equiv stored params.
Proof.
  revert params.
  induction calls as [|[v p] calls IH] using rev_ind; intros params.
  - discriminate.
  - rewrite last_params_snoc, preroll_all_snoc.
    destruct (decide (v = view_id)) as [->|Hne].
    + intros [= ->]. apply Preroll_view_params_same.
    + intros Hlast. rewrite Preroll_view_params_other by congruence.
      apply IH. assumption.
Qed.

Lemma preroll_all_device_pixel_ratio calls e :
  device_pixel_ratio_ (preroll_all calls e) = device_pixel_ratio_ e.
Proof.
  induction calls as [|[v p] calls IH] using rev_ind; [reflexivity|].
  rewrite preroll_all_snoc. cbn. exact IH.
Qed.

Lemma last_params_is_Some calls (view_id : Z) :
  view_id ∈ calls.*1 -> is_Some (last_params calls view_id).
Proof.
  induction calls as [|[v p] calls IH] using rev_ind.
  - cbn. intros H. apply elem_of_nil in H. contradiction.
  - rewrite fmap_app, elem_of_app, last_params_snoc. cbn.
    rewrite list_elem_of_singleton.
    destruct (decide (v = view_id)); [eauto|].
    intros [H|H]; [auto | congruence].
Qed.

Lemma GetViewRect_xywh (view_id : Z) e stored :
  view_params_ e !! view_id = Some stored ->
  exists rect,
    GetViewRect view_id e = Some rect /\
    (Sk.x rect == Sk.x (finalBoundingRect stored))%Q /\
    (Sk.y rect == Sk.y (finalBoundingRect stored))%Q /\
    (Sk.width rect ==
       Sk.size_width (sizePoints stored) * device_pixel_ratio_ e)%Q /\
    (Sk.height rect ==
       Sk.size_height (sizePoints stored) * device_pixel_ratio_ e)%Q.
Proof.
  intros Hstored. unfold GetViewRect. rewrite Hstored.
  eexists. split; [reflexivity|].
  unfold Sk.MakeXYWH, Sk.x, Sk.y, Sk.width, Sk.height. cbn.
  repeat split; try reflexivity; ring.
Qed.

(** C8: for every view id prerolled in the frame, [GetViewRect] returns a
    rectangle whose origin is the offset of the view's params, unscaled,
    and whose width and height are the logical size of the params
    multiplied by the device pixel ratio.  The params are those of the
    most recent preroll of the view id. *)
Theorem GetViewRect_of_prerolled
    (calls : list (Z * EmbeddedViewParams))
    (e : AndroidExternalViewEmbedder) (view_id : Z) :
  view_id ∈ calls.*1 ->
  exists params rect,
    last_params calls view_id = Some params /\
    GetViewRect view_id (preroll_all calls e) = Some rect /\
    (Sk.x rect == Sk.x (finalBoundingRect params))%Q /\
    (Sk.y rect == Sk.y (finalBoundingRect params))%Q /\
    (Sk.width rect ==
       Sk.size_width (sizePoints params) * device_pixel_ratio_ e)%Q /\
    (Sk.height rect ==
       Sk.size_height (sizePoints params) * device_pixel_ratio_ e)%Q.
Proof.
  intros Hin.
  destruct (last_params_is_Some calls view_id Hin) as [params Hlast].
  destruct (preroll_all_view_params calls e view_id params Hlast)
    as (stored & Hstored & (Hw & Hh) & _ & Hx & Hy & _).
  destruct (GetViewRect_xywh view_id _ stored Hstored)
    as (rect & Hrect & Hrx & Hry & Hrw & Hrh).
  rewrite preroll_all_device_pixel_ratio in Hrw, Hrh.
  exists params, rect. split; [assumption|]. split; [assumption|].
  unfold Sk.x, Sk.y in *.
  rewrite Hrx, Hry, Hrw, Hrh, Hx, Hy, Hw, Hh.
  repeat split; reflexivity.
Qed.

Lemma GetViewRect_of_prerolled_witness :
  exists params rect,
    last_params [(7, params_a); (9, params_a); (7, params_a')] 7
      = Some params /\
    GetViewRect 7
      (preroll_all [(7, params_a); (9, params_a); (7, params_a')] frame_begun)
      = Some rect /\
    (Sk.x rect == Sk.x (finalBoundingRect params))%Q /\
    (Sk.y rect == Sk.y (finalBoundingRect params))%Q /\
    (Sk.width rect ==
       Sk.size_width (sizePoints params) * device_pixel_ratio_ frame_begun)%Q /\
    (Sk.height rect ==
       Sk.size_height (sizePoints params) * device_pixel_ratio_ frame_begun)%Q.
Proof.
  apply (GetViewRect_of_prerolled
           [(7, params_a); (9, params_a); (7, params_a')] frame_begun 7).
  cbn. apply list_elem_of_here.
Defined.

(** The rectangle on values: offset (10, 20) and size 100 x 50 at pixel
    ratio 2 give x = 10, y = 20, width = 200, height = 100. *)
Example GetViewRect_frame_one_view :
  GetViewRect 7 frame_one_view = Some (Sk.mkRect 10 20 210 120) /\
  Sk.width (Sk.mkRect 10 20 210 120) = 200%Q /\
  Sk.height (Sk.mkRect 10 20 210 120) = 100%Q.
Proof. vm_compute. repeat split. Qed.

Lemma same_view_rect_of_equiv (view_id : Z) e1 e2 :
  device_pixel_ratio_ e1 = device_pixel_ratio_ e2 ->
  match view_params_ e1 !! view_id, view_params_ e2 !! view_id with
  | Some a, Some b => Params_equiv a b
  | None, None => True
  | _, _ => False
  end ->
  same_view_rect (GetViewRect view_id e1) (GetViewRect view_id e2).
Proof.
  intros Hratio. unfold GetViewRect, same_view_rect. rewrite Hratio.
  destruct (view_params_ e1 !! view_id) as [a|],
           (view_params_ e2 !! view_id) as [b|]; try tauto.
  intros ((Hw & Hh) & _ & Hx & Hy & _).
  unfold Sk.Rect_equiv, Sk.MakeXYWH, Sk.x, Sk.y. cbn.
  rewrite Hx, Hy, Hw, Hh. repeat split; reflexivity.
Qed.

(** C9: when the params map already holds params for the view id and the
    params of the call are value-equal to them, the params map is left as
    it was (the stored entry is kept).  The skipped update changes nothing
    else: every other field is what it is when the params are always
    stored, the params that would have been stored are value-equal to the
    ones kept, and [GetViewRect] returns the same rectangle for every
    view id. *)
Theorem Preroll_equal_params_keeps_stored (view_id : Z)
    (stored params : EmbeddedViewParams) (e : AndroidExternalViewEmbedder) :
  view_params_ e !! view_id = Some stored ->
  EmbeddedViewParams_eqb stored params = true ->
  let e1 := PrerollCompositeEmbeddedView view_id params e in
  let e2 := PrerollCompositeEmbeddedView_always_store view_id params e in
  view_params_ e1 = view_params_ e /\
  view_params_ e1 !! view_id = Some stored /\
  composition_order_ e1 = composition_order_ e2 /\
  picture_recorders_ e1 = picture_recorders_ e2 /\
  view_rtrees_ e1 = view_rtrees_ e2 /\
  frame_size_ e1 = frame_size_ e2 /\
  device_pixel_ratio_ e1 = device_pixel_ratio_ e2 /\
  should_run_rasterizer_on_platform_thread_ e1 =
    should_run_rasterizer_on_platform_thread_ e2 /\
  surface_pool_ e1 = surface_pool_ e2 /\
  (forall v : Z,
     match view_params_ e1 !! v, view_params_ e2 !! v with
     | Some a, Some b => Params_equiv a b
     | None, None => True
     | _, _ => False
     end) /\
  (forall v : Z, same_view_rect (GetViewRect v e1) (GetViewRect v e2)).
Proof.
  intros Hstored Heq e1 e2.
  assert (Hmap : view_params_ e1 = view_params_ e).
  { unfold e1, PrerollCompositeEmbeddedView. cbn.
    rewrite Hstored, Heq. reflexivity. }
  assert (Hall : forall v : Z,
             match view_params_ e1 !! v, view_params_ e2 !! v with
             | Some a, Some b => Params_equiv a b
             | None, None => True
             | _, _ => False
             end).
  { intros v. rewrite Hmap. unfold e2. cbn.
    destruct (decide (v = view_id)) as [->|Hne].
    - rewrite Hstored, lookup_insert_eq.
      apply EmbeddedViewParams_eqb_equiv. assumption.
    - rewrite lookup_insert_ne by congruence.
      destruct (view_params_ e !! v); [apply Params_equiv_refl | exact I]. }
  split; [exact Hmap|]. split; [rewrite Hmap; exact Hstored|].
  do 7 (split; [reflexivity|]).
  split; [exact Hall|].
  intros v. apply same_view_rect_of_equiv; [reflexivity | apply Hall].
Qed.

Lemma Preroll_equal_params_keeps_stored_witness :
  let e1 := PrerollCompositeEmbeddedView 7 params_a' frame_one_view in
  let e2 := PrerollCompositeEmbeddedView_always_store 7 params_a' frame_one_view in
  view_params_ e1 = view_params_ frame_one_view /\
  view_params_ e1 !! 7 = Some params_a /\
  composition_order_ e1 = composition_order_ e2 /\
  picture_recorders_ e1 = picture_recorders_ e2 /\
  view_rtrees_ e1 = view_rtrees_ e2 /\
  frame_size_ e1 = frame_size_ e2 /\
  device_pixel_ratio_ e1 = device_pixel_ratio_ e2 /\
  should_run_rasterizer_on_platform_thread_ e1 =
    should_run_rasterizer_on_platform_thread_ e2 /\
  surface_pool_ e1 = surface_pool_ e2 /\
  (forall v : Z,
     match view_params_ e1 !! v, view_params_ e2 !! v with
     | Some a, Some b => Params_equiv a b
     | None, None => True
     | _, _ => False
     end) /\
  (forall v : Z, same_view_rect (GetViewRect v e1) (GetViewRect v e2)).
Proof.
  apply (Preroll_equal_params_keeps_stored 7 params_a params_a' frame_one_view);
    reflexivity.
Defined.

(** ** Rounding *)

Lemma roundOut_integer_aligned (r : Sk.Rect) :
  Sk.integer_aligned (Sk.MakeIRect (Sk.roundOut r)).
Proof. repeat split; eexists; reflexivity. Qed.

Lemma saturate2int_floor (q : Q) :
  (inject_Z (- Sk.SK_MaxS32FitsInFloat) <= q)%Q ->
  (inject_Z (Sk.saturate2int (Qfloor q)) <= q)%Q.
Proof.
  intros Hlow. apply Qle_trans with (inject_Z (Qfloor q)); [|apply Qfloor_le].
  rewrite <- Zle_Qle. unfold Sk.saturate2int.
  apply Qfloor_resp_le in Hlow. rewrite Qfloor_Z in Hlow. lia.
Qed.

Lemma saturate2int_ceiling (q : Q) :
  (q <= inject_Z Sk.SK_MaxS32FitsInFloat)%Q ->
  (q <= inject_Z (Sk.saturate2int (Qceiling q)))%Q.
Proof.
  intros Hhigh. apply Qle_trans with (inject_Z (Qceiling q));
    [apply Qle_ceiling|].
  rewrite <- Zle_Qle. unfold Sk.saturate2int.
  apply Qceiling_resp_le in Hhigh. rewrite Qceiling_Z in Hhigh. lia.
Qed.

(** Rounding outward contains the rectangle, within the range of
    [int]. *)
Lemma roundOut_contains (r : Sk.Rect) :
  Sk.fits_int r -> Sk.contains (Sk.MakeIRect (Sk.roundOut r)) r.
Proof.
  intros (Hl & Ht & Hr & Hb). unfold Sk.contains. cbn.
  repeat split; first [apply saturate2int_floor | apply saturate2int_ceiling];
    assumption.
Qed.

(** ** Loops *)

Lemma for_each_preserves {A S : Type} (Inv : S -> Prop) (Q : A -> Prop)
    (body : S -> A -> option S) :
  (forall s a s', Inv s -> Q a -> body s a = Some s' -> Inv s') ->
  forall l s s',
    Forall Q l -> Inv s -> for_each body l s = Some s' -> Inv s'.
Proof.
  intros Hbody l. induction l as [|a l IH]; intros s s' HQ Hinv Hrun.
  - cbn in Hrun. congruence.
  - cbn in Hrun. apply Forall_cons in HQ as [Ha Hl].
    destruct (body s a) as [s1|] eqn:Hstep; [|discriminate].
    eauto.
Qed.

Lemma for_each_total {A S : Type} (Inv : S -> Prop) (Q : A -> Prop)
    (body : S -> A -> option S) :
  (forall s a, Inv s -> Q a -> exists s', body s a = Some s' /\ Inv s') ->
  forall l s,
    Forall Q l -> Inv s -> exists s', for_each body l s = Some s' /\ Inv s'.
Proof.
  intros Hbody l. induction l as [|a l IH]; intros s HQ Hinv.
  - exists s. split; [reflexivity | assumption].
  - apply Forall_cons in HQ as [Ha Hl].
    destruct (Hbody s a Hinv Ha) as (s1 & Hstep & Hinv1).
    cbn. rewrite Hstep. apply IH; assumption.
Qed.

(** The countdown of [with_countdown] is the index in the reversed
    list. *)
Lemma with_countdown_lookup {A} (l : list A) :
  Forall (fun jc : nat * A =>
            reverse l !! jc.1 = Some jc.2 /\ (jc.1 < length l)%nat)
         (with_countdown l).
Proof.
  induction l as [|a l IH]; [constructor|].
  cbn [with_countdown]. rewrite reverse_cons. constructor.
  - cbn. split; [|lia].
    rewrite <- (length_reverse l). apply list_lookup_middle. reflexivity.
  - eapply Forall_impl; [exact IH|].
    intros [j c] [Hj Hlt]. cbn [fst snd length] in *. split; [|lia].
    apply lookup_app_l_Some. exact Hj.
Qed.

Lemma with_countdown_snd {A} (l : list A) : (with_countdown l).*2 = l.
Proof. induction l as [|a l IH]; [reflexivity|]. cbn. f_equal. exact IH. Qed.

(** The views and indices the loop over [j] of slot [i] meets, when the
    composition order is [reverse earlier_rev ++ view_id :: later]. *)
Lemma slot_countdown (order earlier_rev later : list Z) (view_id : Z) :
  order = reverse earlier_rev ++ view_id :: later ->
  order !! length earlier_rev = Some view_id /\
  Forall (fun jc : nat * Z =>
            order !! jc.1 = Some jc.2 /\ (jc.1 <= length earlier_rev)%nat)
         (with_countdown (view_id :: earlier_rev)).
Proof.
  intros ->. split.
  - rewrite <- (length_reverse earlier_rev).
    apply list_lookup_middle. reflexivity.
  - eapply Forall_impl; [apply with_countdown_lookup|].
    intros [j c] [Hj Hlt]. rewrite reverse_cons in Hj.
    cbn [fst snd length] in *. split; [|lia].
    replace (reverse earlier_rev ++ view_id :: later)
      with ((reverse earlier_rev ++ [view_id]) ++ later)
      by (rewrite <- app_assoc; reflexivity).
    apply lookup_app_l_Some. exact Hj.
Qed.

(** ** The rectangles of [SubmitFrame] *)

Section SubmitFrameRects.

Variable kMax : nat.
Variable search : RTree -> Sk.Rect -> list Sk.Rect.
Variable joined_rect_init : nat -> nat -> Sk.Rect.
Variable e : AndroidExternalViewEmbedder.

Local Abbreviation P := (rounded_query_result kMax search joined_rect_init e).
Local Abbreviation rects_rounded := (rects_satisfy P).

Lemma rects_rounded_emit evs st :
  Forall (event_rects_satisfy P) evs -> rects_rounded st ->
  rects_rounded (emit evs st).
Proof.
  intros Hevs [Hev Hol]. split; [|exact Hol].
  cbn. apply Forall_app. auto.
Qed.

Lemma place_intersection_rect_rounded view_id st r0 st' :
  rects_rounded st -> is_query_result kMax search joined_rect_init e r0 ->
  place_intersection_rect view_id st r0 = Some st' -> rects_rounded st'.
Proof.
  intros [Hev Hol] Hr0. unfold place_intersection_rect.
  destruct (overlay_layers st !! view_id) as [rects|] eqn:Hrects;
    [|discriminate].
  intros [= <-].
  assert (HP : P (Sk.MakeIRect (Sk.roundOut r0))).
  { exists r0. auto using roundOut_integer_aligned, roundOut_contains. }
  split; cbn.
  - apply Forall_app. split; [assumption|]. constructor; [exact HP|constructor].
  - intros v rs. destruct (decide (v = view_id)) as [->|Hne].
    + rewrite lookup_insert_eq. intros [= <-].
      apply Forall_app. split; [eauto|]. constructor; [exact HP|constructor].
    + rewrite lookup_insert_ne by congruence. apply Hol.
Qed.

Lemma occlusion_step_rounded (i j : nat) view_id rtree st current_view_id st' :
  composition_order_ e !! i = Some view_id ->
  composition_order_ e !! j = Some current_view_id ->
  (j <= i)%nat ->
  view_rtrees_ e !! view_id = Some rtree ->
  rects_rounded st ->
  occlusion_step kMax search e (joined_rect_init i j) view_id rtree st
    current_view_id = Some st' ->
  rects_rounded st'.
Proof.
  intros Hv Hc Hji Hrtree Hinv. unfold occlusion_step.
  destruct (occlusion_query kMax search e (joined_rect_init i j) rtree
              current_view_id) as [rs|] eqn:Hquery; [|discriminate].
  apply (for_each_preserves rects_rounded
           (is_query_result kMax search joined_rect_init e)).
  - intros s a s' Hs Ha. apply place_intersection_rect_rounded; assumption.
  - apply Forall_forall. intros r0 Hr0.
    exists i, j, view_id, current_view_id, rtree, rs. auto 10.
  - exact Hinv.
Qed.

Lemma composite_slot_rounded earlier_rev view_id later st st' :
  composition_order_ e = reverse earlier_rev ++ view_id :: later ->
  rects_rounded st ->
  composite_slot kMax search e joined_rect_init earlier_rev view_id st
    = Some st' ->
  rects_rounded st'.
Proof.
  intros Horder [Hev Hol]. unfold composite_slot.
  destruct (slot_countdown _ _ _ _ Horder) as [Hview Hjs].
  destruct (recorders st !! view_id) as [recorder|]; [|discriminate].
  destruct (finishRecordingAsPicture recorder) as [[picture|] recorder'];
    [|discriminate].
  destruct (view_rtrees_ e !! view_id) as [rtree|] eqn:Hrtree; [|discriminate].
  match goal with
  | |- context [for_each ?body ?l ?s] =>
      destruct (for_each body l s) as [st2|] eqn:Hloop; [|discriminate]
  end.
  destruct (pictures st2 !! view_id) as [p|]; [|discriminate].
  intros [= <-]. apply rects_rounded_emit; [repeat constructor|].
  revert Hloop.
  apply (for_each_preserves rects_rounded
           (fun jc : nat * Z =>
              composition_order_ e !! jc.1 = Some jc.2 /\
              (jc.1 <= length earlier_rev)%nat)).
  - intros s [j c] s' Hs [Hc Hji]. cbn in *.
    apply (occlusion_step_rounded (length earlier_rev) j); assumption.
  - exact Hjs.
  - split; [exact Hev|]. cbn. intros v rects. unfold map_insert_new.
    destruct (overlay_layers st !! view_id) eqn:Hold; [apply Hol|].
    destruct (decide (v = view_id)) as [->|Hne].
    + rewrite lookup_insert_eq. intros [= <-]. constructor.
    + rewrite lookup_insert_ne by congruence. apply Hol.
Qed.

Lemma composite_slots_rounded todo : forall earlier_rev st st',
  composition_order_ e = reverse earlier_rev ++ todo ->
  rects_rounded st ->
  composite_slots kMax search e joined_rect_init earlier_rev todo st
    = Some st' ->
  rects_rounded st'.
Proof.
  induction todo as [|view_id todo IH]; intros earlier_rev st st' Horder Hinv.
  - cbn. congruence.
  - cbn.
    destruct (composite_slot kMax search e joined_rect_init earlier_rev
                view_id st) as [st1|] eqn:Hslot; [|discriminate].
    apply IH.
    + rewrite reverse_cons, <- app_assoc. exact Horder.
    + eapply composite_slot_rounded; eassumption.
Qed.

Lemma CreateSurfaceIfNeeded_rounded picture st rect :
  P rect -> rects_rounded st ->
  rects_rounded (CreateSurfaceIfNeeded e picture st rect) /\
  overlay_layers (CreateSurfaceIfNeeded e picture st rect) = overlay_layers st.
Proof.
  intros HP [Hev Hol]. unfold CreateSurfaceIfNeeded.
  destruct (SurfacePool_GetLayer (pool st)) as [layer pool'].
  split; [|reflexivity]. split; [|exact Hol]. cbn.
  apply Forall_app. split; [assumption|].
  repeat constructor. exists rect. auto.
Qed.

Lemma place_view_rounded st view_id st' :
  rects_rounded st -> place_view e st view_id = Some st' -> rects_rounded st'.
Proof.
  intros Hinv. unfold place_view.
  destruct (GetViewRect view_id e) as [view_rect|]; [|discriminate].
  match goal with
  | |- context [emit ?evs st] => set (st1 := emit evs st)
  end.
  assert (Hinv1 : rects_rounded st1)
    by (apply rects_rounded_emit; [repeat constructor | assumption]).
  destruct (overlay_layers st1 !! view_id) as [rects|] eqn:Hrects;
    [|discriminate].
  assert (Hrs : Forall P rects) by (destruct Hinv1 as [_ Hol]; eauto).
  apply (for_each_preserves rects_rounded P).
  - intros s a s' Hs Ha. unfold place_overlay.
    destruct (pictures s !! view_id) as [picture|]; [|discriminate].
    intros [= <-]. apply CreateSurfaceIfNeeded_rounded; assumption.
  - exact Hrs.
  - exact Hinv1.
Qed.

(** C5 (amended): every rectangle that [SubmitFrame] uses to clip the
    background canvas or to place an overlay surface is a rectangle of
    an occlusion query's (capped) result rounded outward: its edges are
    integers, and it contains the rectangle it was rounded from whenever
    no edge of that rectangle lies beyond the range [roundOut] saturates
    to. *)
Theorem SubmitFrame_rects_rounded_outward ok e' evs :
  SubmitFrame kMax search joined_rect_init e = Some (ok, e', evs) ->
  Forall (event_rects_satisfy
            (rounded_query_result kMax search joined_rect_init e)) evs.
Proof.
  unfold SubmitFrame.
  destruct (should_run_rasterizer_on_platform_thread_ e).
  { intros [= <- <- <-]. constructor. }
  match goal with
  | |- context [composite_slots _ _ _ _ _ _ ?s] =>
      destruct (composite_slots kMax search e joined_rect_init []
                  (composition_order_ e) s) as [st1|] eqn:Hphase1;
        [|discriminate]
  end.
  destruct (for_each (place_view e) (composition_order_ e)
              (emit [BackgroundSubmit] st1)) as [st3|] eqn:Hphase2;
    [|discriminate].
  intros [= <- <- <-].
  assert (Hinv1 : rects_rounded st1).
  { eapply (composite_slots_rounded _ []); [reflexivity | | exact Hphase1].
    split; [repeat constructor|]. cbn. intros v rects.
    rewrite lookup_empty. discriminate. }
  assert (Hinv3 : rects_rounded st3).
  { revert Hphase2.
    apply (for_each_preserves rects_rounded (fun _ => True)).
    - intros s a s' Hs _. apply place_view_rounded. assumption.
    - apply Forall_forall. auto.
    - apply rects_rounded_emit; [repeat constructor | assumption]. }
  apply Forall_app. split; [apply Hinv3 | repeat constructor].
Qed.

End SubmitFrameRects.

Lemma SubmitFrame_rects_rounded_outward_witness :
  exists ok e' evs,
    SubmitFrame 2 search_all stale_storage frame_one_overlay
      = Some (ok, e', evs) /\
    clip_rects evs = [Sk.mkRect 0 0 4 5] /\
    overlay_placements evs = [0] /\
    Forall (event_rects_satisfy
              (rounded_query_result 2 search_all stale_storage
                 frame_one_overlay))
           evs.
Proof.
  eexists _, _, _. split; [vm_compute; reflexivity|].
  split; [reflexivity|]. split; [reflexivity|].
  eapply (SubmitFrame_rects_rounded_outward 2 search_all stale_storage
            frame_one_overlay).
  vm_compute. reflexivity.
Defined.

(** The claim of C5 fails on the code: a rectangle whose right edge is
    beyond the range that the conversion to [int] keeps is rounded to a
    rectangle that does not contain it.  Such a rectangle reaches the
    rounding from the storage of the uninitialised [joined_rect] (first
    run: three results above the cap of 2, joined into storage that
    holds a right edge of 2^32), and from the r-tree (second run: a
    frame 2147483647 wide and one primitive drawn up to its right
    edge). *)
Lemma SubmitFrame_rounding_saturates :
  occlusion_query 2 search_all frame_three_overlays wide_rect three_rects 7
    = Some [Sk.mkRect 0 0 (inject_Z (2 ^ 32)) 40] /\
  (fun r => clip_rects r.2) <$>
    SubmitFrame 2 search_all wide_storage frame_three_overlays
    = Some [Sk.mkRect 0 0 2147483520 40] /\
  Sk.MakeIRect (Sk.roundOut (Sk.mkRect 0 0 (inject_Z (2 ^ 32)) 40))
    = Sk.mkRect 0 0 2147483520 40 /\
  ~ Sk.contains (Sk.mkRect 0 0 2147483520 40)
                (Sk.mkRect 0 0 (inject_Z (2 ^ 32)) 40) /\
  frame_size_ frame_wide_overlay = Sk.mkISize 2147483647 600 /\
  view_rtrees_ frame_wide_overlay !! 7
    = Some [Sk.mkRect 10 20 2147483647 40] /\
  (fun r => clip_rects r.2) <$>
    SubmitFrame 2 search_all empty_storage frame_wide_overlay
    = Some [Sk.mkRect 10 20 2147483520 40] /\
  ~ Sk.contains (Sk.mkRect 10 20 2147483520 40)
                (Sk.mkRect 10 20 2147483647 40).
Proof.
  split; [vm_compute; reflexivity|]. split; [vm_compute; reflexivity|].
  split; [vm_compute; reflexivity|]. split; [|split; [|split; [|split]]].
  - intros (_ & _ & Hr & _). cbn in Hr. apply Hr. reflexivity.
  - reflexivity.
  - vm_compute. reflexivity.
  - vm_compute. reflexivity.
  - intros (_ & _ & Hr & _). cbn in Hr. apply Hr. reflexivity.
Qed.

(** ** Joining rectangles *)

Lemma Qltb_lt a b : Sk.Qltb a b = true <-> (a < b)%Q.
Proof.
  unfold Sk.Qltb. rewrite negb_true_iff.
  split.
  - intros H. apply Qnot_le_lt. intros Hle.
    apply Qle_bool_iff in Hle. congruence.
  - intros H. destruct (Qle_bool b a) eqn:Hle; [|reflexivity].
    apply Qle_bool_iff in Hle. exfalso. exact (Qlt_not_le _ _ H Hle).
Qed.

Lemma isEmpty_false r :
  Sk.isEmpty r = false <->
  (Sk.fLeft r < Sk.fRight r)%Q /\ (Sk.fTop r < Sk.fBottom r)%Q.
Proof.
  unfold Sk.isEmpty. rewrite negb_false_iff, andb_true_iff, !Qltb_lt.
  reflexivity.
Qed.

Lemma Qmin_spec a b :
  (Sk.Qmin a b <= a)%Q /\ (Sk.Qmin a b <= b)%Q /\
  forall c, (c <= a)%Q -> (c <= b)%Q -> (c <= Sk.Qmin a b)%Q.
Proof.
  unfold Sk.Qmin. destruct (Qle_bool a b) eqn:Hle.
  - apply Qle_bool_iff in Hle. repeat split; auto; lra.
  - assert (b < a)%Q.
    { apply Qnot_le_lt. intros H. apply Qle_bool_iff in H. congruence. }
    repeat split; auto; lra.
Qed.

Lemma Qmax_spec a b :
  (a <= Sk.Qmax a b)%Q /\ (b <= Sk.Qmax a b)%Q /\
  forall c, (a <= c)%Q -> (b <= c)%Q -> (Sk.Qmax a b <= c)%Q.
Proof.
  unfold Sk.Qmax. destruct (Qle_bool a b) eqn:Hle.
  - apply Qle_bool_iff in Hle. repeat split; auto; lra.
  - assert (b < a)%Q.
    { apply Qnot_le_lt. intros H. apply Qle_bool_iff in H. congruence. }
    repeat split; auto; lra.
Qed.

Lemma contains_refl r : Sk.contains r r.
Proof. unfold Sk.contains. repeat split; lra. Qed.

Lemma contains_trans a b c : Sk.contains a b -> Sk.contains b c -> Sk.contains a c.
Proof. unfold Sk.contains. intros (?&?&?&?) (?&?&?&?). repeat split; lra. Qed.

Lemma join_nonempty this r :
  Sk.isEmpty this = false -> Sk.isEmpty r = false ->
  Sk.isEmpty (Sk.join this r) = false /\
  Sk.contains (Sk.join this r) this /\
  Sk.contains (Sk.join this r) r /\
  forall b, Sk.contains b this -> Sk.contains b r ->
            Sk.contains b (Sk.join this r).
Proof.
  intros Hthis Hr. unfold Sk.join. rewrite Hthis, Hr.
  apply isEmpty_false in Hthis as [Hw Hh].
  destruct (Qmin_spec (Sk.fLeft this) (Sk.fLeft r)) as (Hl1 & Hl2 & Hl3).
  destruct (Qmin_spec (Sk.fTop this) (Sk.fTop r)) as (Ht1 & Ht2 & Ht3).
  destruct (Qmax_spec (Sk.fRight this) (Sk.fRight r)) as (Hr1 & Hr2 & Hr3).
  destruct (Qmax_spec (Sk.fBottom this) (Sk.fBottom r)) as (Hb1 & Hb2 & Hb3).
  split; [|split; [|split]].
  - apply isEmpty_false. cbn. split; lra.
  - unfold Sk.contains. cbn. auto.
  - unfold Sk.contains. cbn. auto.
  - unfold Sk.contains. cbn. intros b (?&?&?&?) (?&?&?&?). auto.
Qed.

Lemma foldl_join_invariant rs : forall acc seen,
  (Sk.isEmpty acc = true /\ (forall r, r ∈ seen -> Sk.isEmpty r = true)) \/
  (Sk.isEmpty acc = false /\ is_union acc seen) ->
  (Sk.isEmpty (foldl Sk.join acc rs) = true /\
     (forall r, r ∈ seen ++ rs -> Sk.isEmpty r = true)) \/
  (Sk.isEmpty (foldl Sk.join acc rs) = false /\
     is_union (foldl Sk.join acc rs) (seen ++ rs)).
Proof.
  induction rs as [|r rs IH]; intros acc seen Hinv.
  - cbn. rewrite app_nil_r. exact Hinv.
  - cbn [foldl]. replace (seen ++ r :: rs) with ((seen ++ [r]) ++ rs)
      by (rewrite <- app_assoc; reflexivity).
    apply IH. clear IH.
    destruct (Sk.isEmpty r) eqn:Hr.
    + (* an empty rectangle is ignored *)
      replace (Sk.join acc r) with acc by (unfold Sk.join; rewrite Hr; reflexivity).
      destruct Hinv as [[Hacc Hseen]|[Hacc [Hub Hleast]]].
      * left. split; [assumption|]. intros x Hx.
        apply elem_of_app in Hx as [Hx|Hx]; [auto|].
        apply list_elem_of_singleton in Hx. congruence.
      * right. split; [assumption|]. split.
        -- intros x Hx Hne. apply elem_of_app in Hx as [Hx|Hx]; [auto|].
           apply list_elem_of_singleton in Hx. congruence.
        -- intros b Hb. apply Hleast. intros x Hx. apply Hb.
           apply elem_of_app. auto.
    + right. destruct Hinv as [[Hacc Hseen]|[Hacc [Hub Hleast]]].
      * (* the first non-empty rectangle replaces the receiver *)
        replace (Sk.join acc r) with r
          by (unfold Sk.join; rewrite Hr, Hacc; reflexivity).
        split; [assumption|]. split.
        -- intros x Hx Hne. apply elem_of_app in Hx as [Hx|Hx].
           ++ rewrite (Hseen x Hx) in Hne. discriminate.
           ++ apply list_elem_of_singleton in Hx. subst x. apply contains_refl.
        -- intros b Hb. apply Hb; [|assumption].
           apply elem_of_app. right. apply list_elem_of_singleton. reflexivity.
      * destruct (join_nonempty acc r Hacc Hr) as (Hne & Hca & Hcr & Hglb).
        split; [assumption|]. split.
        -- intros x Hx Hxne. apply elem_of_app in Hx as [Hx|Hx].
           ++ eapply contains_trans; [exact Hca | auto].
           ++ apply list_elem_of_singleton in Hx. subst x. assumption.
        -- intros b Hb. apply Hglb.
           ++ apply Hleast. intros x Hx. apply Hb. apply elem_of_app. auto.
           ++ apply Hb; [|assumption].
              apply elem_of_app. right. apply list_elem_of_singleton. reflexivity.
Qed.

(** With an empty starting value, the joined rectangle is the union. *)
Lemma foldl_join_is_union init rs :
  Sk.isEmpty init = true ->
  (exists r, r ∈ rs /\ Sk.isEmpty r = false) ->
  is_union (foldl Sk.join init rs) rs.
Proof.
  intros Hinit (r & Hin & Hne).
  destruct (foldl_join_invariant rs init []) as [[_ Hall]|[_ Hunion]].
  - left. split; [assumption|]. intros x Hx. apply elem_of_nil in Hx. contradiction.
  - cbn in Hall. rewrite (Hall r Hin) in Hne. discriminate.
  - exact Hunion.
Qed.

Lemma is_union_unique u1 u2 rs :
  is_union u1 rs -> is_union u2 rs -> Sk.Rect_equiv u1 u2.
Proof.
  intros [Hub1 Hleast1] [Hub2 Hleast2].
  destruct (Hleast1 u2 Hub2) as (?&?&?&?).
  destruct (Hleast2 u1 Hub1) as (?&?&?&?).
  unfold Sk.Rect_equiv. repeat split; lra.
Qed.

(** ** The cap on the rectangles of one query *)

(** Lines 120-127: above the cap the query's result is one rectangle,
    the local [joined_rect] after joining every returned rectangle. *)
Lemma occlusion_query_over_cap kMax search e joined_rect_init rtree
    (current_view_id : Z) view_rect :
  GetViewRect current_view_id e = Some view_rect ->
  (kMax < length (search rtree view_rect))%nat ->
  occlusion_query kMax search e joined_rect_init rtree current_view_id =
    Some [foldl Sk.join joined_rect_init (search rtree view_rect)].
Proof.
  intros Hrect Hcap. unfold occlusion_query. rewrite Hrect.
  apply Nat.ltb_lt in Hcap. rewrite Hcap. reflexivity.
Qed.

(** Lines 108-140 above the cap: the query contributes exactly one
    overlay rectangle and one clip of the background, both the rounded
    [joined_rect]. *)
Lemma occlusion_step_over_cap kMax search e joined_rect_init (view_id : Z)
    rtree st (current_view_id : Z) view_rect rects :
  GetViewRect current_view_id e = Some view_rect ->
  (kMax < length (search rtree view_rect))%nat ->
  overlay_layers st !! view_id = Some rects ->
  let joined :=
    Sk.MakeIRect
      (Sk.roundOut (foldl Sk.join joined_rect_init (search rtree view_rect))) in
  occlusion_step kMax search e joined_rect_init view_id rtree st
    current_view_id =
    Some (mkSubmit (<[view_id := rects ++ [joined]]> (overlay_layers st))
                   (pictures st)
                   (events st ++ [BackgroundClipRectDifference joined])
                   (pool st) (recorders st)).
Proof.
  intros Hrect Hcap Hrects. unfold occlusion_step.
  rewrite (occlusion_query_over_cap _ _ _ _ _ _ _ Hrect Hcap).
  cbn. unfold place_intersection_rect. rewrite Hrects. reflexivity.
Qed.

(** When the storage of [joined_rect] happens to hold an empty rectangle,
    the collapsed rectangle is the union of the returned rectangles. *)
Lemma occlusion_query_over_cap_union kMax search e joined_rect_init rtree
    (current_view_id : Z) view_rect :
  GetViewRect current_view_id e = Some view_rect ->
  (kMax < length (search rtree view_rect))%nat ->
  Sk.isEmpty joined_rect_init = true ->
  (exists r, r ∈ search rtree view_rect /\ Sk.isEmpty r = false) ->
  exists u,
    occlusion_query kMax search e joined_rect_init rtree current_view_id
      = Some [u] /\
    is_union u (search rtree view_rect).
Proof.
  intros Hrect Hcap Hinit Hne. eexists. split.
  - apply occlusion_query_over_cap; eassumption.
  - apply foldl_join_is_union; assumption.
Qed.

Lemma three_rects_union : is_union (Sk.mkRect 10 20 110 40) three_rects.
Proof.
  change (Sk.mkRect 10 20 110 40) with (foldl Sk.join Sk.MakeEmpty three_rects).
  apply foldl_join_is_union; [reflexivity|].
  exists (Sk.mkRect 10 20 30 40). split; [apply list_elem_of_here | reflexivity].
Qed.

(** C3 does not hold on the code.  View 7 is prerolled, three primitives
    are drawn above it, the cap is 2, and the storage of the uninitialised
    local [joined_rect] holds the non-empty rectangle (0, 0, 500, 500).
    The query returns the three rectangles; [SubmitFrame] collapses them
    into one rectangle and uses only that one, but the rectangle is
    (0, 0, 500, 500), which is not the union (10, 20, 110, 40) of the
    returned rectangles.  Started from an empty rectangle the same run
    uses the union. *)
Theorem SubmitFrame_joined_rect_not_union :
  search_all three_rects (Sk.mkRect 10 20 210 120) = three_rects /\
  (2 < length three_rects)%nat /\
  (fun r => (clip_rects r.2, overlay_placements r.2)) <$>
    SubmitFrame 2 search_all stale_storage frame_three_overlays
    = Some ([Sk.mkRect 0 0 500 500], [0]) /\
  is_union (Sk.mkRect 10 20 110 40) three_rects /\
  ~ is_union (Sk.mkRect 0 0 500 500) three_rects /\
  ~ Sk.Rect_equiv (Sk.mkRect 0 0 500 500) (Sk.mkRect 10 20 110 40) /\
  (fun r => (clip_rects r.2, overlay_placements r.2)) <$>
    SubmitFrame 2 search_all empty_storage frame_three_overlays
    = Some ([Sk.mkRect 10 20 110 40], [0]).
Proof.
  split; [reflexivity|]. split; [cbn; lia|].
  split; [vm_compute; reflexivity|].
  split; [exact three_rects_union|].
  split; [|split].
  - intros Hbig.
    destruct (is_union_unique _ _ _ Hbig three_rects_union) as [Hl _].
    cbn in Hl. discriminate Hl.
  - intros [Hl _]. cbn in Hl. discriminate Hl.
  - vm_compute. reflexivity.
Qed.

(** ** [SubmitFrame] terminates normally under the call-order invariant *)

Lemma Forall_with_countdown {A} (Q : A -> Prop) (l : list A) :
  Forall Q l -> Forall (fun jc : nat * A => Q jc.2) (with_countdown l).
Proof.
  induction 1 as [|a l Ha _ IH]; cbn; constructor; assumption.
Qed.

Section SubmitFrameTotal.

Variable kMax : nat.
Variable search : RTree -> Sk.Rect -> list Sk.Rect.
Variable joined_rect_init : nat -> nat -> Sk.Rect.
Variable e : AndroidExternalViewEmbedder.
Hypothesis Hslots : slots_present e.

(** [st'] has an entry in both local maps wherever [st] has one. *)
Local Abbreviation maps_grow st st' :=
  (forall v : Z,
     (is_Some (overlay_layers st !! v) -> is_Some (overlay_layers st' !! v)) /\
     (is_Some (pictures st !! v) -> is_Some (pictures st' !! v))).

Lemma GetViewRect_is_Some (view_id : Z) :
  view_id ∈ composition_order_ e -> is_Some (GetViewRect view_id e).
Proof.
  intros Hin. destruct Hslots as [_ Hall].
  destruct (Hall view_id Hin) as ([params Hparams] & _).
  unfold GetViewRect. rewrite Hparams. eauto.
Qed.

Lemma place_intersection_rect_total (view_id : Z) st0 st r0 :
  is_Some (overlay_layers st0 !! view_id) ->
  maps_grow st0 st /\ recorders st = recorders st0 ->
  exists st', place_intersection_rect view_id st r0 = Some st' /\
              (maps_grow st0 st' /\ recorders st' = recorders st0).
Proof.
  intros Hview [Hgrow Hrec]. unfold place_intersection_rect.
  destruct (proj1 (Hgrow view_id) Hview) as [rects ->].
  eexists. split; [reflexivity|]. split; [|exact Hrec].
  intros v. cbn. split.
  - intros Hv. apply lookup_insert_is_Some'. right. apply Hgrow. assumption.
  - apply Hgrow.
Qed.

Lemma occlusion_step_total init (view_id : Z) rtree st0 st
    (current_view_id : Z) :
  current_view_id ∈ composition_order_ e ->
  is_Some (overlay_layers st0 !! view_id) ->
  maps_grow st0 st /\ recorders st = recorders st0 ->
  exists st',
    occlusion_step kMax search e init view_id rtree st
      current_view_id = Some st' /\
    (maps_grow st0 st' /\ recorders st' = recorders st0).
Proof.
  intros Hcur Hview Hgrow. unfold occlusion_step, occlusion_query.
  destruct (GetViewRect_is_Some current_view_id Hcur) as [view_rect ->].
  match goal with
  | |- context [if ?c then Some ?a else Some ?b] =>
      replace (if c then Some a else Some b) with (Some (if c then a else b))
        by (destruct c; reflexivity)
  end.
  apply (for_each_total
           (fun s => maps_grow st0 s /\ recorders s = recorders st0)
           (fun _ => True)).
  - intros s a Hs _. apply place_intersection_rect_total; assumption.
  - apply Forall_forall. auto.
  - assumption.
Qed.

Lemma composite_slot_total earlier_rev (view_id : Z) st :
  view_id ∈ composition_order_ e ->
  Forall (fun v => v ∈ composition_order_ e) earlier_rev ->
  recorders st !! view_id = picture_recorders_ e !! view_id ->
  exists st',
    composite_slot kMax search e joined_rect_init earlier_rev view_id st
      = Some st' /\
    maps_grow st st' /\
    is_Some (overlay_layers st' !! view_id) /\
    is_Some (pictures st' !! view_id) /\
    (forall w : Z, w <> view_id -> recorders st' !! w = recorders st !! w).
Proof.
  intros Hview Hearlier Hrec. unfold composite_slot.
  destruct Hslots as [_ Hall].
  destruct (Hall view_id Hview)
    as (_ & (recorder & Hrecorder & Hactive) & [rtree Hrtree]).
  rewrite Hrec, Hrecorder. unfold finishRecordingAsPicture.
  rewrite Hactive, Hrtree.
  set (st1 := mkSubmit (map_insert_new view_id [] (overlay_layers st))
                (map_insert_new view_id (recorded recorder) (pictures st))
                (events st) (pool st)
                (<[view_id := finished recorder]> (recorders st))).
  assert (Hnew : forall V (x : V) (m : gmap Z V) (v : Z),
             (v = view_id \/ is_Some (m !! v)) ->
             is_Some (map_insert_new view_id x m !! v)).
  { intros V x m v Hv. unfold map_insert_new.
    destruct (m !! view_id) eqn:Hm.
    - destruct Hv as [->|Hv]; [rewrite Hm; eauto | assumption].
    - apply lookup_insert_is_Some'. destruct Hv; auto. }
  assert (Hgrow1 : maps_grow st st1).
  { intros v. cbn. split; intros Hv; apply Hnew; auto. }
  assert (Hhere : is_Some (overlay_layers st1 !! view_id) /\
                  is_Some (pictures st1 !! view_id)).
  { cbn. split; apply Hnew; auto. }
  destruct (for_each_total
              (fun s => maps_grow st1 s /\ recorders s = recorders st1)
              (fun jc : nat * Z => jc.2 ∈ composition_order_ e)
              (fun s (jc : nat * Z) =>
                 occlusion_step kMax search e
                   (joined_rect_init (length earlier_rev) jc.1)
                   view_id rtree s jc.2))
    with (l := with_countdown (view_id :: earlier_rev)) (s := st1)
    as (st2 & -> & Hgrow2 & Hrec2).
  - intros s a Hs Ha. apply occlusion_step_total; tauto.
  - apply (Forall_with_countdown (fun v => v ∈ composition_order_ e)).
    constructor; assumption.
  - split; [intros v; tauto | reflexivity].
  - destruct (proj2 (Hgrow2 view_id) (proj2 Hhere)) as [p Hp].
    rewrite Hp. eexists. split; [reflexivity|]. cbn.
    split; [|split; [|split]].
    + intros v. split; intros Hv; apply Hgrow2, Hgrow1; assumption.
    + apply Hgrow2. tauto.
    + eauto.
    + intros w Hw. rewrite Hrec2. cbn. apply lookup_insert_ne. congruence.
Qed.

Lemma composite_slots_total todo : forall earlier_rev st,
  NoDup todo ->
  Forall (fun v => v ∈ composition_order_ e) todo ->
  Forall (fun v => v ∈ composition_order_ e) earlier_rev ->
  (forall v : Z, v ∈ todo ->
     recorders st !! v = picture_recorders_ e !! v) ->
  exists st',
    composite_slots kMax search e joined_rect_init earlier_rev todo st
      = Some st' /\
    maps_grow st st' /\
    forall v : Z, v ∈ todo ->
      is_Some (overlay_layers st' !! v) /\ is_Some (pictures st' !! v).
Proof.
  induction todo as [|view_id todo IH];
    intros earlier_rev st Hnd Htodo Hearlier Hrec.
  - exists st. split; [reflexivity|]. split; [tauto|].
    intros v Hv. apply elem_of_nil in Hv. contradiction.
  - apply Forall_cons in Htodo as [Hview Htodo]. cbn.
    apply NoDup_cons in Hnd as [Hfresh Hnd].
    destruct (composite_slot_total earlier_rev view_id st Hview Hearlier)
      as (st1 & -> & Hgrow1 & Hol & Hpic & Hrec1).
    { apply Hrec. apply list_elem_of_here. }
    destruct (IH (view_id :: earlier_rev) st1 Hnd Htodo)
      as (st' & -> & Hgrow & Hall); [constructor; assumption | |].
    { intros v Hv. rewrite Hrec1 by (intros ->; contradiction).
      apply Hrec. apply list_elem_of_further. assumption. }
    exists st'. split; [reflexivity|]. split.
    + intros v. split; intros Hv; apply Hgrow, Hgrow1; assumption.
    + intros v Hv. apply elem_of_cons in Hv as [->|Hv]; [|auto].
      split; apply Hgrow; assumption.
Qed.

Lemma place_view_total st (view_id : Z) :
  view_id ∈ composition_order_ e ->
  is_Some (overlay_layers st !! view_id) -> is_Some (pictures st !! view_id) ->
  exists st',
    place_view e st view_id = Some st' /\
    overlay_layers st' = overlay_layers st /\ pictures st' = pictures st.
Proof.
  intros Hview [rects Hrects] Hpic. unfold place_view.
  destruct (GetViewRect_is_Some view_id Hview) as [view_rect ->].
  cbn. rewrite Hrects.
  match goal with
  | |- context [for_each _ _ ?s] => set (st1 := s)
  end.
  apply (for_each_total
           (fun s => overlay_layers s = overlay_layers st /\
                     pictures s = pictures st) (fun _ => True)).
  - intros s a [Hol Hp] _. unfold place_overlay. rewrite Hp.
    destruct Hpic as [picture ->]. eexists. split; [reflexivity|].
    unfold CreateSurfaceIfNeeded.
    destruct (SurfacePool_GetLayer (pool s)). cbn. auto.
  - apply Forall_forall. auto.
  - split; reflexivity.
Qed.

Lemma SubmitFrame_total :
  exists e' evs,
    SubmitFrame kMax search joined_rect_init e = Some (true, e', evs).
Proof.
  unfold SubmitFrame.
  destruct (should_run_rasterizer_on_platform_thread_ e); [eauto|].
  assert (Hall : Forall (fun v => v ∈ composition_order_ e)
                   (composition_order_ e))
    by (apply Forall_forall; auto).
  match goal with
  | |- context [composite_slots _ _ _ _ _ _ ?s] =>
      destruct (composite_slots_total (composition_order_ e) [] s
                  (proj1 Hslots) Hall)
        as (st1 & -> & _ & Hmaps); [constructor | reflexivity |]
  end.
  destruct (for_each_total
              (fun s => overlay_layers s = overlay_layers st1 /\
                        pictures s = pictures st1)
              (fun v => v ∈ composition_order_ e) (place_view e))
    with (l := composition_order_ e) (s := emit [BackgroundSubmit] st1)
    as (st3 & -> & _).
  - intros s a [Hol Hp] Ha.
    destruct (place_view_total s a Ha) as (s' & Hs' & Hol' & Hp').
    + rewrite Hol. apply Hmaps. assumption.
    + rewrite Hp. apply Hmaps. assumption.
    + exists s'. split; [assumption|]. split; congruence.
  - assumption.
  - split; reflexivity.
  - eauto.
Qed.

End SubmitFrameTotal.

(** The call-order invariant holds in every frame driven by [BeginFrame]
    and preroll calls for distinct views. *)
Lemma slots_present_Preroll view_id params e :
  view_id ∉ composition_order_ e ->
  slots_present e ->
  slots_present (PrerollCompositeEmbeddedView view_id params e).
Proof.
  intros Hfresh [Hnd Hslots]. split.
  - rewrite Preroll_composition_order. apply NoDup_app.
    split; [assumption|]. split; [|apply NoDup_singleton].
    intros v Hv Hv'. apply list_elem_of_singleton in Hv'. congruence.
  - intros v. rewrite Preroll_composition_order, elem_of_app.
    rewrite list_elem_of_singleton. intros Hv.
    destruct (decide (v = view_id)) as [->|Hne].
    + destruct (Preroll_view_params_same view_id params e)
        as (stored & -> & _).
      cbn. rewrite !lookup_insert_eq. eauto 6.
    + destruct Hv as [Hv|Hv]; [|congruence].
      rewrite Preroll_view_params_other by assumption.
      cbn. rewrite !lookup_insert_ne by congruence. auto.
Qed.

Lemma slots_present_frame size ratio e m calls :
  NoDup calls.*1 ->
  slots_present (preroll_all calls (BeginFrame size ratio e m).1.1).
Proof.
  induction calls as [|[v p] calls IH] using rev_ind; intros Hnd.
  - split; [constructor|].
    intros v Hv. apply elem_of_nil in Hv. contradiction.
  - rewrite fmap_app in Hnd. apply NoDup_app in Hnd as (Hnd & Hdisj & _).
    rewrite preroll_all_snoc. apply slots_present_Preroll; [|auto].
    rewrite preroll_all_composition_order. cbn.
    intros Hv. apply (Hdisj v Hv). apply list_elem_of_here.
Qed.

(** ** Scenarios *)

(** No platform view prerolled: [SubmitFrame] draws nothing but the
    background submit and issues no placement; [PostPrerollAction]
    succeeds without touching the merger. *)
Example scenario_no_platform_view :
  SubmitFrame 2 search_all stale_storage frame_begun
    = Some (true, frame_begun,
            [BackgroundSave; BackgroundSubmit; BackgroundRestore]) /\
  PostPrerollAction 10 frame_begun merger_unmerged
    = (kSuccess, frame_begun, merger_unmerged).
Proof. split; vm_compute; reflexivity. Qed.

(** One platform view and nothing drawn above it: no clip, no overlay
    layer, one placement of the view. *)
Example scenario_view_without_overlay :
  (fun r => (clip_rects r.2, overlay_placements r.2,
             layers (surface_pool_ r.1.2))) <$>
    SubmitFrame 2 search_all stale_storage frame_one_view
    = Some ([], [], []) /\
  exists e' evs,
    SubmitFrame 2 search_all stale_storage frame_one_view
      = Some (true, e', evs) /\
    FlutterViewOnDisplayPlatformView 7 10 20 200 100 ∈ evs.
Proof.
  split; [vm_compute; reflexivity|].
  eexists _, _. split; [vm_compute; reflexivity|].
  do 3 apply list_elem_of_further. apply list_elem_of_here.
Qed.

(** A frame of prerolls for distinct views satisfies the call-order
    invariant, so [SubmitFrame] returns on it whatever the r-tree
    answers. *)
Example prerolled_frame_submits search joined_rect_init :
  exists e' evs,
    SubmitFrame 2 search joined_rect_init
      (preroll_all [(7, params_a); (9, params_a')] frame_begun)
      = Some (true, e', evs).
Proof.
  apply SubmitFrame_total. apply slots_present_frame.
  cbn. apply NoDup_cons. split; [|apply NoDup_singleton].
  intros H. apply list_elem_of_singleton in H. discriminate.
Qed.
(** ** Invariants over sequences of calls *)

Lemma embedder_invariant_slots_present e :
  embedder_invariant e ->
  NoDup (composition_order_ e) ->
  (forall (v : Z) recorder,
     v ∈ composition_order_ e ->
     picture_recorders_ e !! v = Some recorder ->
     actively_recording recorder = true) ->
  slots_present e.
Proof.
  intros (Hrec & Hparams & Hrtree) Hnd Hactive. split; [exact Hnd|].
  intros v Hv. split; [auto|]. split.
  - destruct (proj2 (Hrec v) Hv) as [recorder Hrecorder]. eauto.
  - apply Hrtree. auto.
Qed.

Lemma embedder_invariant_new : embedder_invariant AndroidExternalViewEmbedder_new.
Proof.
  unfold embedder_invariant. cbn.
  split; [|split]; intros v; rewrite ?lookup_empty, ?elem_of_nil.
  - split; [intros [? ?]; discriminate | contradiction].
  - contradiction.
  - split; intros [? ?]; discriminate.
Qed.

Lemma embedder_invariant_Reset e :
  embedder_invariant e -> embedder_invariant (Reset e).
Proof.
  intros (_ & _ & Hrtree). unfold embedder_invariant. cbn.
  split; [|split; [|exact Hrtree]].
  - intros v. rewrite lookup_empty, elem_of_nil.
    split; [intros [? ?]; discriminate | contradiction].
  - intros v H. apply elem_of_nil in H. contradiction.
Qed.

Lemma embedder_invariant_Preroll view_id params e :
  embedder_invariant e ->
  embedder_invariant (PrerollCompositeEmbeddedView view_id params e).
Proof.
  intros (Hrec & Hparams & Hrtree).
  assert (Hdom : forall v : Z,
            is_Some (view_params_
                       (PrerollCompositeEmbeddedView view_id params e) !! v) <->
            v = view_id \/ is_Some (view_params_ e !! v)).
  { intros v. destruct (decide (v = view_id)) as [->|Hne].
    - destruct (Preroll_view_params_same view_id params e) as (s & -> & _).
      split; eauto.
    - rewrite Preroll_view_params_other by assumption. tauto. }
  split; [|split].
  - intros v. rewrite Preroll_picture_recorders, Preroll_composition_order.
    rewrite lookup_insert_is_Some', elem_of_app, list_elem_of_singleton, Hrec.
    intuition congruence.
  - intros v. rewrite Preroll_composition_order, elem_of_app.
    rewrite list_elem_of_singleton, Hdom. intros [Hv|Hv]; auto.
  - intros v. rewrite Hdom. cbn.
    rewrite lookup_insert_is_Some', Hrtree. intuition congruence.
Qed.

Lemma embedder_invariant_DrawOnCanvas view_id bounds e :
  embedder_invariant e -> embedder_invariant (DrawOnCanvas view_id bounds e).
Proof.
  intros (Hrec & Hparams & Hrtree). unfold DrawOnCanvas, CompositeEmbeddedView.
  destruct (picture_recorders_ e !! view_id) as [recorder|] eqn:Hlookup;
    [|repeat split; firstorder].
  destruct (getRecordingCanvas recorder) as [rec|];
    [|repeat split; firstorder].
  split; [|split]; cbn.
  - intros v. rewrite lookup_insert_is_Some', <- Hrec.
    split; [intros [->|H]; eauto | auto].
  - exact Hparams.
  - intros v. rewrite <- Hrtree.
    destruct (decide (v = view_id)) as [->|Hne].
    + rewrite lookup_alter_eq. rewrite fmap_is_Some. reflexivity.
    + rewrite lookup_alter_ne by congruence. reflexivity.
Qed.

Lemma embedder_invariant_with_recorders recs e :
  (forall v : Z, is_Some (recs !! v) <-> is_Some (picture_recorders_ e !! v)) ->
  embedder_invariant e ->
  embedder_invariant (with_frame_state (composition_order_ e) recs e).
Proof.
  intros Hdom (Hrec & Hparams & Hrtree). split; [|split]; cbn.
  - intros v. rewrite Hdom. apply Hrec.
  - exact Hparams.
  - exact Hrtree.
Qed.

Lemma embedder_invariant_with_should_run b e :
  embedder_invariant e -> embedder_invariant (with_should_run b e).
Proof. auto. Qed.

Lemma embedder_invariant_with_surface_pool p e :
  embedder_invariant e -> embedder_invariant (with_surface_pool p e).
Proof. auto. Qed.

Lemma embedder_invariant_with_frame_geometry size ratio e :
  embedder_invariant e -> embedder_invariant (with_frame_geometry size ratio e).
Proof. auto. Qed.

Lemma PostPrerollAction_embedder kD e m :
  (PostPrerollAction kD e m).1.2 = e \/
  (PostPrerollAction kD e m).1.2 = CancelFrame (with_should_run true e).
Proof.
  unfold PostPrerollAction.
  destruct (0 <? length (composition_order_ e))%nat; [|auto].
  cbn. destruct (is_merged m); auto.
Qed.

Lemma EndFrame_embedder kD b e m :
  (EndFrame kD b e m).1.1 =
    with_surface_pool (SurfacePool_RecycleLayers (surface_pool_ e))
      (if b && should_run_rasterizer_on_platform_thread_ e
       then with_should_run false e else e).
Proof.
  unfold EndFrame.
  destruct (b && should_run_rasterizer_on_platform_thread_ e); reflexivity.
Qed.

(** The recorders through [SubmitFrame]: finishing a recording is the
    only change. *)

Lemma finished_finished r : finished (finished r) = finished r.
Proof. reflexivity. Qed.

Lemma place_intersection_rect_recorders view_id st r0 st' :
  place_intersection_rect view_id st r0 = Some st' ->
  recorders st' = recorders st.
Proof.
  unfold place_intersection_rect.
  destruct (overlay_layers st !! view_id); [|discriminate].
  intros [= <-]. reflexivity.
Qed.

Lemma occlusion_step_recorders kMax search e init view_id rtree st cur st' :
  occlusion_step kMax search e init view_id rtree st cur = Some st' ->
  recorders st' = recorders st.
Proof.
  unfold occlusion_step.
  destruct (occlusion_query kMax search e init rtree cur) as [rs|];
    [|discriminate].
  apply (for_each_preserves (fun s => recorders s = recorders st)
           (fun _ => True)).
  - intros s a s' Hs _ Hstep.
    apply place_intersection_rect_recorders in Hstep. congruence.
  - apply Forall_forall. auto.
  - reflexivity.
Qed.

Lemma place_view_recorders e st view_id st' :
  place_view e st view_id = Some st' -> recorders st' = recorders st.
Proof.
  unfold place_view.
  destruct (GetViewRect view_id e) as [view_rect|]; [|discriminate].
  cbn [emit overlay_layers].
  destruct (overlay_layers st !! view_id) as [rects|]; [|discriminate].
  apply (for_each_preserves (fun s => recorders s = recorders st)
           (fun _ => True)).
  - intros s a s' Hs _. unfold place_overlay.
    destruct (pictures s !! view_id) as [picture|]; [|discriminate].
    intros [= <-]. unfold CreateSurfaceIfNeeded.
    destruct (SurfacePool_GetLayer (pool s)). exact Hs.
  - apply Forall_forall. auto.
  - reflexivity.
Qed.

Lemma composite_slot_recorders kMax search e joined_rect_init earlier_rev
    (view_id : Z) st st' :
  composite_slot kMax search e joined_rect_init earlier_rev view_id st
    = Some st' ->
  exists recorder,
    recorders st !! view_id = Some recorder /\
    actively_recording recorder = true /\
    recorders st' = <[view_id := finished recorder]> (recorders st).
Proof.
  unfold composite_slot.
  destruct (recorders st !! view_id) as [recorder|]; [|discriminate].
  unfold finishRecordingAsPicture.
  destruct (actively_recording recorder) eqn:Hactive; [|discriminate].
  destruct (view_rtrees_ e !! view_id) as [rtree|]; [|discriminate].
  match goal with
  | |- context [for_each ?body ?l ?s] =>
      destruct (for_each body l s) as [st2|] eqn:Hloop; [|discriminate]
  end.
  destruct (pictures st2 !! view_id) as [p|]; [|discriminate].
  intros [= <-]. exists recorder. split; [reflexivity|].
  split; [exact Hactive|]. cbn [emit recorders].
  revert Hloop.
  match goal with
  | |- for_each _ _ ?s = _ -> _ =>
      apply (for_each_preserves (fun s' => recorders s' = recorders s)
               (fun _ => True))
  end.
  - intros s a s' Hs _ Hstep.
    apply occlusion_step_recorders in Hstep. congruence.
  - apply Forall_forall. auto.
  - reflexivity.
Qed.

Lemma composite_slots_recorders kMax search e joined_rect_init todo :
  forall earlier_rev st st',
  composite_slots kMax search e joined_rect_init earlier_rev todo st
    = Some st' ->
  forall v : Z,
    recorders st' !! v =
      if decide (v ∈ todo) then finished <$> recorders st !! v
      else recorders st !! v.
Proof.
  induction todo as [|view_id todo IH]; intros earlier_rev st st'.
  - cbn [composite_slots]. intros [= <-] v.
    destruct (decide (v ∈ [])) as [H|_]; [|reflexivity].
    apply elem_of_nil in H. contradiction.
  - cbn [composite_slots].
    destruct (composite_slot kMax search e joined_rect_init earlier_rev
                view_id st) as [s1|] eqn:Hslot; [|discriminate].
    intros Hrest v.
    apply composite_slot_recorders in Hslot as (recorder & Hrec & _ & Hs1).
    rewrite (IH _ _ _ Hrest v), Hs1.
    destruct (decide (v = view_id)) as [->|Hne].
    + rewrite lookup_insert_eq, Hrec.
      destruct (decide (view_id ∈ view_id :: todo)) as [_|Hn];
        [|exfalso; apply Hn, list_elem_of_here].
      destruct (decide (view_id ∈ todo)); reflexivity.
    + rewrite lookup_insert_ne by congruence.
      destruct (decide (v ∈ todo)) as [Hin|Hnin];
        destruct (decide (v ∈ view_id :: todo)) as [Hin'|Hnin'];
        try reflexivity.
      * exfalso. apply Hnin'. apply list_elem_of_further. exact Hin.
      * exfalso. apply elem_of_cons in Hin' as [?|?]; [congruence | auto].
Qed.

(** What a [SubmitFrame] that is not a no-op leaves in the embedder. *)
Lemma SubmitFrame_result kMax search joined_rect_init e ok e' evs :
  should_run_rasterizer_on_platform_thread_ e = false ->
  SubmitFrame kMax search joined_rect_init e = Some (ok, e', evs) ->
  ok = true /\
  e' = with_surface_pool (surface_pool_ e')
         (with_frame_state (composition_order_ e) (picture_recorders_ e') e) /\
  forall v : Z,
    picture_recorders_ e' !! v =
      if decide (v ∈ composition_order_ e)
      then finished <$> picture_recorders_ e !! v
      else picture_recorders_ e !! v.
Proof.
  intros Hmark. unfold SubmitFrame. rewrite Hmark.
  destruct (composite_slots _ _ _ _ _ _ _) as [st1|] eqn:Hphase1;
    [|discriminate].
  destruct (for_each _ _ _) as [st3|] eqn:Hphase2; [|discriminate].
  intros [= <- <- <-]. split; [reflexivity|]. split; [reflexivity|].
  intros v. cbn.
  assert (Hrec3 : recorders st3 = recorders st1).
  { revert Hphase2.
    apply (for_each_preserves (fun s => recorders s = recorders st1)
             (fun _ => True)).
    - intros s a s' Hs _ Hstep. apply place_view_recorders in Hstep. congruence.
    - apply Forall_forall. auto.
    - reflexivity. }
  rewrite Hrec3.
  apply (composite_slots_recorders _ _ _ _ _ _ _ _ Hphase1 v).
Qed.

Lemma SubmitFrame_embedder kMax search joined_rect_init e ok e' evs :
  SubmitFrame kMax search joined_rect_init e = Some (ok, e', evs) ->
  ok = true /\
  exists p recs,
    e' = with_surface_pool p
           (with_frame_state (composition_order_ e) recs e) /\
    forall v : Z, is_Some (recs !! v) <-> is_Some (picture_recorders_ e !! v).
Proof.
  intros Hrun.
  destruct (should_run_rasterizer_on_platform_thread_ e) eqn:Hmark.
  - unfold SubmitFrame in Hrun. rewrite Hmark in Hrun.
    injection Hrun as <- <- <-. split; [reflexivity|].
    exists (surface_pool_ e), (picture_recorders_ e).
    split; [destruct e; reflexivity | reflexivity].
  - destruct (SubmitFrame_result _ _ _ _ _ _ _ Hmark Hrun)
      as (Hok & He' & Hrecs).
    split; [exact Hok|].
    exists (surface_pool_ e'), (picture_recorders_ e').
    split; [exact He'|]. intros v. rewrite Hrecs.
    destruct (decide (v ∈ composition_order_ e)); [|reflexivity].
    apply fmap_is_Some.
Qed.

Lemma step_keeps_invariant kMax kD search e op e' :
  embedder_invariant e ->
  step kMax kD search e op = Some e' -> embedder_invariant e'.
Proof.
  intros Hinv. destruct op as [size ratio m|view_id params|view_id bounds
                              |m|joined_rect_init|b m|]; cbn [step].
  - intros [= <-].
    apply embedder_invariant_with_frame_geometry, embedder_invariant_Reset, Hinv.
  - intros [= <-]. apply embedder_invariant_Preroll, Hinv.
  - intros [= <-]. apply embedder_invariant_DrawOnCanvas, Hinv.
  - intros [= <-].
    destruct (PostPrerollAction_embedder kD e m) as [-> | ->]; [exact Hinv|].
    apply embedder_invariant_Reset, embedder_invariant_with_should_run, Hinv.
  - destruct (SubmitFrame kMax search joined_rect_init e)
      as [[[ok e1] evs]|] eqn:Hrun; [|discriminate].
    intros [= <-].
    apply SubmitFrame_embedder in Hrun as [_ (p & recs & -> & Hdom)].
    apply embedder_invariant_with_surface_pool.
    apply embedder_invariant_with_recorders; assumption.
  - intros [= <-]. rewrite EndFrame_embedder.
    apply embedder_invariant_with_surface_pool.
    destruct (b && should_run_rasterizer_on_platform_thread_ e);
      [apply embedder_invariant_with_should_run|]; exact Hinv.
  - intros [= <-]. apply embedder_invariant_Reset, Hinv.
Qed.

Lemma run_keeps_invariant kMax kD search ops e e' :
  embedder_invariant e ->
  run kMax kD search ops e = Some e' -> embedder_invariant e'.
Proof.
  intros Hinv. unfold run.
  apply (for_each_preserves embedder_invariant (fun _ => True)).
  - intros s op s' Hs _. apply step_keeps_invariant. assumption.
  - apply Forall_forall. auto.
  - assumption.
Qed.

(** X1: in every state reached from a newly constructed embedder by a
    sequence of calls that returned (begin frame, preroll, draw,
    post-preroll action, submit, end frame, cancel, in any order and
    number, with any merger), no [at] of the embedder can throw: a view
    has a recorder exactly when it is in the composition order, every
    view of the order has params, and the params and r-tree maps have
    the same keys.  So [GetCurrentCanvases] returns, and [SubmitFrame]
    returns whenever the composition order has no repeated view and no
    recording of the frame is finished yet. *)
Theorem reachable_state_lookups_defined (kMax : nat) (kD : Z)
    (search : RTree -> Sk.Rect -> list Sk.Rect) (ops : list Op)
    (e : AndroidExternalViewEmbedder) :
  run kMax kD search ops AndroidExternalViewEmbedder_new = Some e ->
  embedder_invariant e /\
  is_Some (GetCurrentCanvases e) /\
  forall joined_rect_init,
    NoDup (composition_order_ e) ->
    (forall (v : Z) recorder,
       v ∈ composition_order_ e ->
       picture_recorders_ e !! v = Some recorder ->
       actively_recording recorder = true) ->
    exists e' evs,
      SubmitFrame kMax search joined_rect_init e = Some (true, e', evs).
Proof.
  intros Hrun.
  pose proof (run_keeps_invariant _ _ _ _ _ _ embedder_invariant_new Hrun)
    as Hinv.
  split; [exact Hinv|]. split.
  - unfold GetCurrentCanvases. apply mapM_is_Some, Forall_forall.
    intros v Hv. destruct Hinv as (Hrec & _).
    destruct (proj2 (Hrec v) Hv) as [recorder Hrecorder].
    cbn. rewrite Hrecorder. eauto.
  - intros joined_rect_init Hnd Hactive. apply SubmitFrame_total.
    apply embedder_invariant_slots_present; assumption.
Qed.

Lemma reachable_state_lookups_defined_witness :
  exists e,
    run 2 10 search_all
      [OpBeginFrame (Sk.mkISize 800 600) 2 merger_merged;
       OpPreroll 7 params_a;
       OpDraw 7 (Sk.mkRect 10 20 30 40);
       OpPostPrerollAction merger_merged;
       OpSubmitFrame stale_storage;
       OpEndFrame false merger_merged;
       OpBeginFrame (Sk.mkISize 800 600) 2 merger_merged;
       OpPreroll 9 params_a;
       OpPreroll 7 params_a']
      AndroidExternalViewEmbedder_new = Some e /\
    composition_order_ e = [9; 7] /\
    embedder_invariant e /\
    is_Some (GetCurrentCanvases e) /\
    forall joined_rect_init,
      NoDup (composition_order_ e) ->
      (forall (v : Z) recorder,
         v ∈ composition_order_ e ->
         picture_recorders_ e !! v = Some recorder ->
         actively_recording recorder = true) ->
      exists e' evs,
        SubmitFrame 2 search_all joined_rect_init e = Some (true, e', evs).
Proof.
  eexists. split; [vm_compute; reflexivity|].
  split; [reflexivity|].
  eapply (reachable_state_lookups_defined 2 10 search_all
            [OpBeginFrame (Sk.mkISize 800 600) 2 merger_merged;
             OpPreroll 7 params_a;
             OpDraw 7 (Sk.mkRect 10 20 30 40);
             OpPostPrerollAction merger_merged;
             OpSubmitFrame stale_storage;
             OpEndFrame false merger_merged;
             OpBeginFrame (Sk.mkISize 800 600) 2 merger_merged;
             OpPreroll 9 params_a;
             OpPreroll 7 params_a']).
  vm_compute. reflexivity.
Defined.

(** ** Canvases of a frame *)





(** ** The resubmission mark and the calls on the merger *)

(** X3: how each call changes the resubmission mark.  It is set by
    [PostPrerollAction] when the composition order is non-empty and the
    threads are not merged, cleared by [EndFrame] when its argument
    [should_resubmit_frame] is true, and left as it is by every other
    call, [BeginFrame], [CancelFrame] and [SubmitFrame] included. *)
Theorem resubmission_mark_step (kMax : nat) (kD : Z)
    (search : RTree -> Sk.Rect -> list Sk.Rect)
    (e e' : AndroidExternalViewEmbedder) (op : Op) :
  step kMax kD search e op = Some e' ->
  should_run_rasterizer_on_platform_thread_ e' =
    match op with
    | OpPostPrerollAction m =>
        should_run_rasterizer_on_platform_thread_ e ||
        ((0 <? length (composition_order_ e))%nat && negb (is_merged m))
    | OpEndFrame should_resubmit_frame _ =>
        should_run_rasterizer_on_platform_thread_ e &&
        negb should_resubmit_frame
    | _ => should_run_rasterizer_on_platform_thread_ e
    end.
Proof.
  destruct op as [size ratio m|view_id params|view_id bounds
                 |m|joined_rect_init|b m|]; cbn [step].
  - intros [= <-]. reflexivity.
  - intros [= <-]. reflexivity.
  - intros [= <-]. unfold DrawOnCanvas.
    destruct (CompositeEmbeddedView view_id e); reflexivity.
  - intros [= <-]. unfold PostPrerollAction.
    destruct (0 <? length (composition_order_ e))%nat; cbn.
    + destruct (is_merged m); cbn; [rewrite orb_false_r | rewrite orb_true_r];
        reflexivity.
    + rewrite orb_false_r. reflexivity.
  - destruct (SubmitFrame kMax search joined_rect_init e)
      as [[[ok e1] evs]|] eqn:Hrun; [|discriminate].
    intros [= <-].
    apply SubmitFrame_embedder in Hrun as [_ (p & recs & -> & _)].
    reflexivity.
  - intros [= <-]. rewrite EndFrame_embedder.
    destruct b, (should_run_rasterizer_on_platform_thread_ e) eqn:Hmark;
      cbn; try rewrite Hmark; reflexivity.
  - intros [= <-]. reflexivity.
Qed.

Lemma resubmission_mark_step_witness :
  step 2 10 search_all frame_one_view (OpPostPrerollAction merger_unmerged)
    = Some (CancelFrame (with_should_run true frame_one_view)) /\
  should_run_rasterizer_on_platform_thread_
    (CancelFrame (with_should_run true frame_one_view)) =
    should_run_rasterizer_on_platform_thread_ frame_one_view ||
    ((0 <? length (composition_order_ frame_one_view))%nat &&
     negb (is_merged merger_unmerged)).
Proof.
  split; [reflexivity|].
  apply (resubmission_mark_step 2 10 search_all frame_one_view
           (CancelFrame (with_should_run true frame_one_view))
           (OpPostPrerollAction merger_unmerged)).
  reflexivity.
Defined.

Lemma step_keeps_mark kMax kD search e op :
  should_run_rasterizer_on_platform_thread_ e = true ->
  match op with OpEndFrame true _ => False | _ => True end ->
  exists e', step kMax kD search e op = Some e' /\
             should_run_rasterizer_on_platform_thread_ e' = true.
Proof.
  intros Hmark Hop.
  destruct op as [size ratio m|view_id params|view_id bounds
                 |m|joined_rect_init|b m|]; cbn [step].
  - eauto.
  - eauto.
  - eexists. split; [reflexivity|]. unfold DrawOnCanvas.
    destruct (CompositeEmbeddedView view_id e); assumption.
  - eexists. split; [reflexivity|].
    destruct (PostPrerollAction_embedder kD e m) as [-> | ->];
      [assumption | reflexivity].
  - unfold SubmitFrame. rewrite Hmark. eauto.
  - eexists. split; [reflexivity|]. rewrite EndFrame_embedder.
    destruct b; [contradiction|]. cbn. assumption.
  - eauto.
Qed.

(** X4: once the resubmission mark is set, it stays set through every
    sequence of calls that contains no [EndFrame] with
    [should_resubmit_frame = true]: new frames, prerolls, cancels and
    [EndFrame(false, ...)] do not clear it, no call of the sequence
    terminates the process, and [SubmitFrame] is still the no-op
    afterwards. *)
Theorem resubmission_mark_sticky (kMax : nat) (kD : Z)
    (search : RTree -> Sk.Rect -> list Sk.Rect)
    (ops : list Op) (e : AndroidExternalViewEmbedder) :
  should_run_rasterizer_on_platform_thread_ e = true ->
  Forall (fun op => match op with OpEndFrame true _ => False | _ => True end)
         ops ->
  exists e',
    run kMax kD search ops e = Some e' /\
    should_run_rasterizer_on_platform_thread_ e' = true /\
    forall joined_rect_init,
      SubmitFrame kMax search joined_rect_init e' = Some (true, e', []).
Proof.
  intros Hmark Hops.
  destruct (for_each_total
              (fun s => should_run_rasterizer_on_platform_thread_ s = true)
              (fun op => match op with OpEndFrame true _ => False | _ => True end)
              (step kMax kD search))
    with (l := ops) (s := e) as (e' & Hrun & Hmark').
  - intros s op Hs Hop. apply step_keeps_mark; assumption.
  - assumption.
  - assumption.
  - exists e'. split; [exact Hrun|]. split; [exact Hmark'|].
    intros joined_rect_init. unfold SubmitFrame. rewrite Hmark'. reflexivity.
Qed.

Lemma resubmission_mark_sticky_witness :
  let e := (PostPrerollAction 10 frame_one_view merger_unmerged).1.2 in
  let ops := [OpEndFrame false merger_unmerged;
              OpBeginFrame (Sk.mkISize 800 600) 2 merger_merged;
              OpPreroll 7 params_a;
              OpSubmitFrame stale_storage] in
  exists e',
    run 2 10 search_all ops e = Some e' /\
    should_run_rasterizer_on_platform_thread_ e' = true /\
    forall joined_rect_init,
      SubmitFrame 2 search_all joined_rect_init e' = Some (true, e', []).
Proof.
  apply (resubmission_mark_sticky 2 10 search_all).
  - reflexivity.
  - repeat constructor.
Defined.

(** X5: the operations each function invokes on the thread merger, in
    order, and the frame signals it sends to the JNI facade.
    [BeginFrame] and [EndFrame] ask for the current thread once and
    signal the facade only on the platform thread; [PostPrerollAction]
    asks [IsMerged] only when the composition order is non-empty and
    extends the lease only when merged; [MergeWithLease] is invoked by
    [EndFrame] alone, and only when both its argument and the
    resubmission mark are set. *)
Theorem merger_operations (kD : Z) (e : AndroidExternalViewEmbedder)
    (m : RasterThreadMerger) (size : Sk.ISize) (ratio : Q) (b : bool) :
  merger_calls (BeginFrame size ratio e m).1.2
    = merger_calls m ++ [CallIsOnPlatformThread] /\
  (BeginFrame size ratio e m).2
    = (if on_platform_thread m then [FlutterViewBeginFrame] else []) /\
  merger_calls (PostPrerollAction kD e m).2
    = merger_calls m ++
      match composition_order_ e with
      | [] => []
      | _ :: _ => CallIsMerged ::
                  (if is_merged m then [CallExtendLeaseTo kD] else [])
      end /\
  merger_calls (EndFrame kD b e m).1.2
    = merger_calls m ++
      (if b && should_run_rasterizer_on_platform_thread_ e
       then [CallMergeWithLease kD] else []) ++ [CallIsOnPlatformThread] /\
  (EndFrame kD b e m).2
    = (if on_platform_thread m then [FlutterViewEndFrame] else []).
Proof.
  split; [reflexivity|]. split; [reflexivity|]. split; [|split].
  - unfold PostPrerollAction.
    destruct (composition_order_ e) as [|v order]; cbn.
    + rewrite app_nil_r. reflexivity.
    + destruct (is_merged m); cbn; rewrite <- ?app_assoc; reflexivity.
  - unfold EndFrame.
    destruct (b && should_run_rasterizer_on_platform_thread_ e); cbn.
    + destruct (is_merged m); cbn; rewrite <- ?app_assoc; reflexivity.
    + reflexivity.
  - unfold EndFrame.
    destruct (b && should_run_rasterizer_on_platform_thread_ e); cbn.
    + destruct (is_merged m); reflexivity.
    + reflexivity.
Qed.

(** X6: with an empty composition order [SubmitFrame] leaves the
    embedder as it is and, unless the resubmission mark is set, only
    saves, submits and restores the background: no clip, no placement,
    no overlay layer. *)
Theorem SubmitFrame_empty_order (kMax : nat)
    (search : RTree -> Sk.Rect -> list Sk.Rect)
    (joined_rect_init : nat -> nat -> Sk.Rect)
    (e : AndroidExternalViewEmbedder) :
  composition_order_ e = [] ->
  SubmitFrame kMax search joined_rect_init e =
    Some (true, e,
          if should_run_rasterizer_on_platform_thread_ e then []
          else [BackgroundSave; BackgroundSubmit; BackgroundRestore]).
Proof.
  intros Horder. unfold SubmitFrame. rewrite Horder.
  destruct (should_run_rasterizer_on_platform_thread_ e); [reflexivity|].
  destruct e. cbn in *. subst. reflexivity.
Qed.

Lemma SubmitFrame_empty_order_witness :
  composition_order_ frame_begun = [] /\
  SubmitFrame 2 search_all stale_storage frame_begun =
    Some (true, frame_begun,
          if should_run_rasterizer_on_platform_thread_ frame_begun then []
          else [BackgroundSave; BackgroundSubmit; BackgroundRestore]).
Proof.
  split; [reflexivity|].
  apply (SubmitFrame_empty_order 2 search_all stale_storage frame_begun).
  reflexivity.
Defined.

(** ** The trace of [SubmitFrame] *)

Lemma clip_rects_app evs1 evs2 :
  clip_rects (evs1 ++ evs2) = clip_rects evs1 ++ clip_rects evs2.
Proof. apply omap_app. Qed.

Lemma clip_rects_clips rs :
  clip_rects (BackgroundClipRectDifference <$> rs) = rs.
Proof. induction rs as [|r rs IH]; [reflexivity|]. cbn. f_equal. exact IH. Qed.

Lemma clip_rects_placement evs :
  Forall (fun ev => is_placement_call ev = true) evs -> clip_rects evs = [].
Proof.
  induction 1 as [|ev evs Hev _ IH]; [reflexivity|].
  destruct ev; try discriminate; exact IH.
Qed.

Lemma placements_background evs :
  Forall (fun ev => is_background_drawing ev = true) evs ->
  platform_view_placements evs = [] /\ overlay_rect_placements evs = [] /\
  overlay_placements evs = [].
Proof.
  induction 1 as [|ev evs Hev _ IH]; [repeat split|].
  destruct ev; try discriminate; exact IH.
Qed.

Section SubmitFrameTrace.

Variable kMax : nat.
Variable search : RTree -> Sk.Rect -> list Sk.Rect.
Variable joined_rect_init : nat -> nat -> Sk.Rect.
Variable e : AndroidExternalViewEmbedder.

Local Abbreviation rounded := (fun r0 => Sk.MakeIRect (Sk.roundOut r0)).
Local Abbreviation cap := (Nat.max 1 kMax).

(** [st'] is [st] after clipping the background by [added] and appending
    [added] to the overlay rectangles of [view_id]. *)
Local Abbreviation extends view_id st st' added :=
  (events st' = events st ++ (BackgroundClipRectDifference <$> added%list) /\
   pictures st' = pictures st /\ pool st' = pool st /\
   (forall w : Z, w <> view_id ->
      overlay_layers st' !! w = overlay_layers st !! w) /\
   (forall rects0, overlay_layers st !! view_id = Some rects0 ->
      overlay_layers st' !! view_id = Some (rects0 ++ added))).

Lemma extends_nil (view_id : Z) st : extends view_id st st [].
Proof.
  cbn. rewrite !app_nil_r. repeat split; auto.
  intros rects0 H. rewrite app_nil_r. exact H.
Qed.

Lemma extends_trans (view_id : Z) a b c x y :
  extends view_id a b x -> extends view_id b c y ->
  extends view_id a c (x ++ y).
Proof.
  intros (Hev1 & Hp1 & Hq1 & Ho1 & Hv1) (Hev2 & Hp2 & Hq2 & Ho2 & Hv2).
  split; [|split; [|split; [|split]]].
  - rewrite Hev2, Hev1, fmap_app, app_assoc. reflexivity.
  - congruence.
  - congruence.
  - intros w Hw. rewrite Ho2, Ho1 by assumption. reflexivity.
  - intros rects0 H. rewrite app_assoc. auto.
Qed.

Lemma place_intersection_rect_extends (view_id : Z) st r0 st' :
  place_intersection_rect view_id st r0 = Some st' ->
  extends view_id st st' [rounded r0].
Proof.
  unfold place_intersection_rect.
  destruct (overlay_layers st !! view_id) as [rects|] eqn:Hrects;
    [|discriminate].
  intros [= <-]. cbn. repeat split.
  - intros w Hw. apply lookup_insert_ne. congruence.
  - intros rects0 [= <-]. apply lookup_insert_eq.
Qed.

Lemma place_loop_extends (view_id : Z) rs : forall st st',
  for_each (place_intersection_rect view_id) rs st = Some st' ->
  extends view_id st st' (rounded <$> rs).
Proof.
  induction rs as [|r0 rs IH]; intros st st'.
  - cbn [for_each]. intros [= <-]. apply extends_nil.
  - cbn [for_each].
    destruct (place_intersection_rect view_id st r0) as [s1|] eqn:Hstep;
      [|discriminate].
    intros Hrest. rewrite fmap_cons.
    apply (extends_trans view_id st s1 st' [rounded r0] (rounded <$> rs)).
    + apply place_intersection_rect_extends. assumption.
    + apply IH. assumption.
Qed.

Lemma occlusion_query_length init rtree (current_view_id : Z) rs :
  occlusion_query kMax search e init rtree current_view_id = Some rs ->
  (length rs <= cap)%nat.
Proof.
  unfold occlusion_query.
  destruct (GetViewRect current_view_id e) as [view_rect|]; [|discriminate].
  destruct (kMax <? length (search rtree view_rect))%nat eqn:Hcap;
    intros [= <-].
  - cbn. lia.
  - apply Nat.ltb_ge in Hcap. lia.
Qed.

Lemma occlusion_loop_extends (i : nat) (view_id : Z) rtree
    (jcs : list (nat * Z)) : forall st st',
  for_each (fun s (jc : nat * Z) =>
              occlusion_step kMax search e (joined_rect_init i jc.1)
                             view_id rtree s jc.2)
           jcs st = Some st' ->
  exists added,
    extends view_id st st' added /\
    (length added <= length jcs * cap)%nat.
Proof.
  induction jcs as [|[j c] jcs IH]; intros st st'.
  - cbn [for_each]. intros [= <-]. exists []. split; [apply extends_nil|].
    cbn. lia.
  - cbn [for_each fst snd]. unfold occlusion_step at 1.
    destruct (occlusion_query kMax search e (joined_rect_init i j) rtree c)
      as [rs|] eqn:Hquery; [|discriminate].
    destruct (for_each (place_intersection_rect view_id) rs st)
      as [s1|] eqn:Hplace; [|discriminate].
    intros Hrest. destruct (IH s1 st' Hrest) as (added & Hext & Hlen).
    exists ((rounded <$> rs) ++ added). split.
    + eapply extends_trans; [apply place_loop_extends; eassumption|exact Hext].
    + apply occlusion_query_length in Hquery.
      rewrite length_app, length_fmap. cbn [length]. lia.
Qed.

Lemma length_with_countdown {A} (l : list A) :
  length (with_countdown l) = length l.
Proof. induction l as [|a l IH]; [reflexivity|]. cbn. f_equal. exact IH. Qed.

Lemma map_insert_new_lookup {V} (k : Z) (x : V) (m : gmap Z V) (w : Z) :
  map_insert_new k x m !! w =
  if decide (w = k) then Some (default x (m !! k)) else m !! w.
Proof.
  unfold map_insert_new. destruct (m !! k) as [y|] eqn:Hk.
  - destruct (decide (w = k)) as [->|]; [rewrite Hk|]; reflexivity.
  - destruct (decide (w = k)) as [->|].
    + apply lookup_insert_eq.
    + apply lookup_insert_ne. congruence.
Qed.

Lemma composite_slot_effect earlier_rev (view_id : Z) st st' :
  composite_slot kMax search e joined_rect_init earlier_rev view_id st
    = Some st' ->
  exists added p,
    events st' = events st ++ (BackgroundClipRectDifference <$> added)
                           ++ [BackgroundDrawPicture p] /\
    pool st' = pool st /\
    (length added <= S (length earlier_rev) * cap)%nat /\
    (forall w : Z, w <> view_id ->
       overlay_layers st' !! w = overlay_layers st !! w) /\
    overlay_layers st' !! view_id =
      Some (default [] (overlay_layers st !! view_id) ++ added).
Proof.
  unfold composite_slot.
  destruct (recorders st !! view_id) as [recorder|]; [|discriminate].
  destruct (finishRecordingAsPicture recorder) as [[picture|] recorder'];
    [|discriminate].
  destruct (view_rtrees_ e !! view_id) as [rtree|]; [|discriminate].
  match goal with
  | |- context [for_each ?body ?l ?s] =>
      destruct (for_each body l s) as [st2|] eqn:Hloop; [|discriminate]
  end.
  destruct (pictures st2 !! view_id) as [p|]; [|discriminate].
  intros [= <-].
  apply occlusion_loop_extends in Hloop
    as (added & (Hev & _ & Hpool & Hother & Hview) & Hlen).
  rewrite length_with_countdown in Hlen.
  cbn in Hev, Hpool, Hother, Hview, Hlen.
  exists added, p. cbn. split; [|split; [|split; [|split]]].
  - rewrite Hev, <- app_assoc. reflexivity.
  - exact Hpool.
  - lia.
  - intros w Hw. rewrite Hother by assumption.
    rewrite map_insert_new_lookup. destruct (decide (w = view_id)); congruence.
  - apply Hview. rewrite map_insert_new_lookup.
    destruct (decide (view_id = view_id)); congruence.
Qed.

Lemma composite_slots_effect todo : forall earlier_rev st st',
  composite_slots kMax search e joined_rect_init earlier_rev todo st
    = Some st' ->
  exists bg,
    events st' = events st ++ bg /\
    Forall (fun ev => is_background_drawing ev = true) bg /\
    pool st' = pool st /\
    (2 * length (clip_rects bg)
       + cap * (length earlier_rev * (length earlier_rev + 1))
     <= cap * ((length earlier_rev + length todo)
               * (length earlier_rev + length todo + 1)))%nat /\
    (NoDup (earlier_rev ++ todo) ->
     (forall w : Z, is_Some (overlay_layers st !! w) -> w ∈ earlier_rev) ->
     (forall w : Z, w ∈ earlier_rev ->
        overlay_layers st' !! w = overlay_layers st !! w) /\
     clip_rects bg =
       concat ((fun v => default [] (overlay_layers st' !! v)) <$> todo)).
Proof.
  induction todo as [|view_id todo IH]; intros earlier_rev st st'.
  - cbn [composite_slots]. intros [= <-]. exists [].
    rewrite app_nil_r. change (clip_rects []) with (@nil Sk.Rect).
    cbn [length]. rewrite !Nat.add_0_r.
    split; [reflexivity|]. split; [constructor|]. split; [reflexivity|].
    split; [lia|]. intros _ _. split; reflexivity.
  - cbn [composite_slots].
    destruct (composite_slot kMax search e joined_rect_init earlier_rev
                view_id st) as [s1|] eqn:Hslot; [|discriminate].
    intros Hrest.
    destruct (composite_slot_effect _ _ _ _ Hslot)
      as (added & p & Hev1 & Hpool1 & Hlen1 & Hother1 & Hview1).
    destruct (IH _ _ _ Hrest) as (bg & Hev & Hbg & Hpool & Hlen & Hnodup).
    exists ((BackgroundClipRectDifference <$> added)
            ++ [BackgroundDrawPicture p] ++ bg).
    split; [|split; [|split; [|split]]].
    + rewrite Hev, Hev1, <- !app_assoc. reflexivity.
    + apply Forall_app. split.
      * apply Forall_fmap, Forall_forall. reflexivity.
      * constructor; [reflexivity | assumption].
    + congruence.
    + rewrite clip_rects_app, clip_rects_clips. cbn [app].
      change (clip_rects (BackgroundDrawPicture p :: bg)) with (clip_rects bg).
      rewrite length_app. cbn [length] in Hlen |- *. nia.
    + intros Hnd Hdom.
      assert (Hfresh : (view_id ∉ earlier_rev) /\ (view_id ∉ todo) /\
                       NoDup (view_id :: earlier_rev ++ todo)).
      { apply NoDup_app in Hnd as (Hnd1 & Hdisj & Hnd2).
        apply NoDup_cons in Hnd2 as [Hv Hnd2].
        assert (view_id ∉ earlier_rev).
        { intros Hin. apply (Hdisj view_id Hin). apply list_elem_of_here. }
        split; [assumption|]. split; [assumption|].
        apply NoDup_cons. split.
        - rewrite elem_of_app. tauto.
        - apply NoDup_app. split; [assumption|]. split; [|assumption].
          intros w Hw Hw'. apply (Hdisj w Hw). apply list_elem_of_further.
          assumption. }
      destruct Hfresh as (Hv1 & Hv2 & Hnd').
      assert (Hnone : overlay_layers st !! view_id = None).
      { apply eq_None_not_Some. intros H. apply Hv1, Hdom, H. }
      rewrite Hnone in Hview1. cbn in Hview1.
      destruct Hnodup as [Hkeep Hclips].
      * exact Hnd'.
      * intros w Hw. destruct (decide (w = view_id)) as [->|Hne].
        -- apply list_elem_of_here.
        -- apply list_elem_of_further, Hdom.
           rewrite <- Hother1 by assumption. exact Hw.
      * split.
        -- intros w Hw. rewrite Hkeep by (apply list_elem_of_further; exact Hw).
           apply Hother1. congruence.
        -- rewrite clip_rects_app, clip_rects_clips. cbn [app].
           change (clip_rects (BackgroundDrawPicture p :: bg))
             with (clip_rects bg).
           rewrite Hclips. cbn [fmap list_fmap concat].
           rewrite (Hkeep view_id) by apply list_elem_of_here.
           rewrite Hview1. reflexivity.
Qed.

End SubmitFrameTrace.

Section SubmitFramePlacement.

Variable e : AndroidExternalViewEmbedder.

(** The placement of a view as the JNI facade receives it. *)
Local Abbreviation view_placement :=
  (fun v : Z => (fun r => (v, xywh r)) <$> GetViewRect v e).

Lemma overlay_calls_placement layer size picture rect :
  Forall (fun ev => is_placement_call ev = true)
         (overlay_calls layer size picture rect) /\
  platform_view_placements (overlay_calls layer size picture rect) = [] /\
  overlay_rect_placements (overlay_calls layer size picture rect)
    = [xywh rect] /\
  overlay_placements (overlay_calls layer size picture rect) = [layer].
Proof. repeat split; repeat constructor. Qed.

Lemma CreateSurfaceIfNeeded_calls picture st rect :
  exists layer,
    events (CreateSurfaceIfNeeded e picture st rect) =
      events st ++ overlay_calls layer (frame_size_ e) picture rect /\
    overlay_layers (CreateSurfaceIfNeeded e picture st rect)
      = overlay_layers st /\
    pictures (CreateSurfaceIfNeeded e picture st rect) = pictures st.
Proof.
  unfold CreateSurfaceIfNeeded.
  destruct (SurfacePool_GetLayer (pool st)) as [layer pool'].
  exists (layer_id layer). repeat split.
Qed.

Lemma place_overlay_loop (view_id : Z) rects : forall st st',
  for_each (place_overlay e view_id) rects st = Some st' ->
  exists host,
    events st' = events st ++ host /\
    Forall (fun ev => is_placement_call ev = true) host /\
    platform_view_placements host = [] /\
    overlay_rect_placements host = xywh <$> rects /\
    length (overlay_placements host) = length rects /\
    overlay_layers st' = overlay_layers st.
Proof.
  induction rects as [|rect rects IH]; intros st st'.
  - cbn [for_each]. intros [= <-]. exists []. rewrite app_nil_r.
    repeat split. constructor.
  - cbn [for_each]. unfold place_overlay at 1.
    destruct (pictures st !! view_id) as [picture|]; [|discriminate].
    intros Hrest.
    destruct (CreateSurfaceIfNeeded_calls picture st rect)
      as (layer & Hev1 & Hol1 & _).
    destruct (IH _ _ Hrest) as (host & Hev & Hhost & Hpv & Hov & Hlen & Hol).
    destruct (overlay_calls_placement layer (frame_size_ e) picture rect)
      as (Hc1 & Hc2 & Hc3 & Hc4).
    exists (overlay_calls layer (frame_size_ e) picture rect ++ host).
    split; [rewrite Hev, Hev1, <- app_assoc; reflexivity|].
    split; [apply Forall_app; auto|].
    unfold platform_view_placements, overlay_rect_placements,
      overlay_placements in *.
    rewrite !omap_app, Hc2, Hc3, Hc4, Hpv, Hov, length_app, Hlen.
    repeat split. congruence.
Qed.

Lemma place_view_effect st (view_id : Z) st' :
  place_view e st view_id = Some st' ->
  exists placement rects host,
    view_placement view_id = Some placement /\
    overlay_layers st !! view_id = Some rects /\
    events st' = events st ++ host /\
    Forall (fun ev => is_placement_call ev = true) host /\
    platform_view_placements host = [placement] /\
    overlay_rect_placements host = xywh <$> rects /\
    length (overlay_placements host) = length rects /\
    overlay_layers st' = overlay_layers st.
Proof.
  unfold place_view.
  destruct (GetViewRect view_id e) as [view_rect|]; [|discriminate].
  cbn [emit overlay_layers].
  destruct (overlay_layers st !! view_id) as [rects|]; [|discriminate].
  intros Hloop. apply place_overlay_loop in Hloop
    as (host & Hev & Hhost & Hpv & Hov & Hlen & Hol).
  cbn in Hev, Hol.
  eexists _, rects, (_ :: host).
  split; [reflexivity|]. split; [reflexivity|].
  split; [rewrite Hev, <- app_assoc; reflexivity|].
  split; [constructor; [reflexivity | assumption]|].
  unfold platform_view_placements, overlay_rect_placements,
    overlay_placements in *.
  cbn [omap list_omap]. rewrite Hpv. auto.
Qed.

Lemma place_views_effect views : forall st st',
  for_each (place_view e) views st = Some st' ->
  exists host,
    events st' = events st ++ host /\
    Forall (fun ev => is_placement_call ev = true) host /\
    mapM view_placement views = Some (platform_view_placements host) /\
    overlay_rect_placements host =
      xywh <$> concat ((fun v => default [] (overlay_layers st !! v))
                         <$> views) /\
    length (overlay_placements host) =
      length (concat ((fun v => default [] (overlay_layers st !! v))
                        <$> views)) /\
    overlay_layers st' = overlay_layers st.
Proof.
  induction views as [|v views IH]; intros st st'.
  - cbn [for_each]. intros [= <-]. exists []. rewrite app_nil_r.
    repeat split. constructor.
  - cbn [for_each].
    destruct (place_view e st v) as [s1|] eqn:Hstep; [|discriminate].
    intros Hrest.
    apply place_view_effect in Hstep
      as (placement & rects & host1 & Hplace & Hrects & Hev1 & Hh1 & Hpv1
          & Hov1 & Hlen1 & Hol1).
    destruct (IH _ _ Hrest) as (host & Hev & Hh & Hpv & Hov & Hlen & Hol).
    exists (host1 ++ host).
    split; [rewrite Hev, Hev1, <- app_assoc; reflexivity|].
    split; [apply Forall_app; auto|].
    rewrite Hol1 in Hov, Hlen.
    unfold platform_view_placements, overlay_rect_placements,
      overlay_placements in *.
    rewrite !omap_app, Hpv1, Hov1, Hov, length_app, Hlen1, Hlen.
    cbn [fmap list_fmap concat]. rewrite Hrects. cbn [default].
    rewrite fmap_app, length_app.
    split; [|split; [reflexivity|split; [reflexivity|congruence]]].
    cbn [mapM]. rewrite Hplace, Hpv. reflexivity.
Qed.

End SubmitFramePlacement.

(** The whole trace of a [SubmitFrame] that is not a no-op. *)
Lemma SubmitFrame_trace kMax search joined_rect_init e ok e' evs :
  should_run_rasterizer_on_platform_thread_ e = false ->
  SubmitFrame kMax search joined_rect_init e = Some (ok, e', evs) ->
  exists bg host,
    evs = BackgroundSave :: bg ++ [BackgroundSubmit] ++ host
                         ++ [BackgroundRestore] /\
    Forall (fun ev => is_background_drawing ev = true) bg /\
    Forall (fun ev => is_placement_call ev = true) host /\
    (2 * length (clip_rects bg)
     <= Nat.max 1 kMax * (length (composition_order_ e)
                          * (length (composition_order_ e) + 1)))%nat /\
    mapM (fun v : Z => (fun r => (v, xywh r)) <$> GetViewRect v e)
         (composition_order_ e) = Some (platform_view_placements host) /\
    (NoDup (composition_order_ e) ->
     overlay_rect_placements host = xywh <$> clip_rects bg /\
     length (overlay_placements host) = length (clip_rects bg)).
Proof.
  intros Hmark. unfold SubmitFrame. rewrite Hmark.
  destruct (composite_slots _ _ _ _ _ _ _) as [st1|] eqn:Hphase1;
    [|discriminate].
  destruct (for_each _ _ _) as [st3|] eqn:Hphase2; [|discriminate].
  intros [= <- <- <-].
  apply composite_slots_effect in Hphase1
    as (bg & Hev1 & Hbg & _ & Hlen & Hnodup).
  apply place_views_effect in Hphase2
    as (host & Hev3 & Hhost & Hpv & Hov & Hovlen & _).
  cbn in Hev1, Hev3, Hlen, Hov, Hovlen.
  exists bg, host.
  split; [rewrite Hev3, Hev1, <- !app_assoc; reflexivity|].
  split; [assumption|]. split; [assumption|]. split; [lia|].
  split; [assumption|].
  intros Hnd. destruct Hnodup as [_ Hclips].
  - exact Hnd.
  - cbn. intros w [x Hx]. rewrite lookup_empty in Hx. discriminate.
  - rewrite Hov, Hovlen, Hclips. split; reflexivity.
Qed.

Lemma SubmitFrame_trace_readings bg host :
  Forall (fun ev => is_background_drawing ev = true) bg ->
  Forall (fun ev => is_placement_call ev = true) host ->
  let evs := BackgroundSave :: bg ++ [BackgroundSubmit] ++ host
                            ++ [BackgroundRestore] in
  clip_rects evs = clip_rects bg /\
  platform_view_placements evs = platform_view_placements host /\
  overlay_rect_placements evs = overlay_rect_placements host /\
  overlay_placements evs = overlay_placements host.
Proof.
  intros Hbg Hhost evs. subst evs.
  destruct (placements_background bg Hbg) as (Hb1 & Hb2 & Hb3).
  pose proof (clip_rects_placement host Hhost) as Hc.
  unfold clip_rects, platform_view_placements, overlay_rect_placements,
    overlay_placements in *.
  change (BackgroundSave :: bg ++ [BackgroundSubmit] ++ host
                         ++ [BackgroundRestore])
    with ([BackgroundSave] ++ bg ++ [BackgroundSubmit] ++ host
                           ++ [BackgroundRestore]).
  rewrite !omap_app, Hb1, Hb2, Hb3, Hc. cbn. rewrite !app_nil_r.
  repeat split.
Qed.

(** X7: a [SubmitFrame] that is not a no-op saves the background canvas,
    then only clips it and draws pictures on it, submits the background
    frame exactly once, then only places platform views and overlay
    surfaces and draws on overlays, and restores the background canvas
    last.  No placement precedes the submit of the background and nothing
    is drawn on the background after it. *)
Theorem SubmitFrame_background_before_placements (kMax : nat)
    (search : RTree -> Sk.Rect -> list Sk.Rect)
    (joined_rect_init : nat -> nat -> Sk.Rect)
    (e e' : AndroidExternalViewEmbedder) (ok : bool) (evs : list Event) :
  should_run_rasterizer_on_platform_thread_ e = false ->
  SubmitFrame kMax search joined_rect_init e = Some (ok, e', evs) ->
  exists bg host,
    evs = BackgroundSave :: bg ++ [BackgroundSubmit] ++ host
                         ++ [BackgroundRestore] /\
    Forall (fun ev => is_background_drawing ev = true) bg /\
    Forall (fun ev => is_placement_call ev = true) host.
Proof.
  intros Hmark Hrun.
  destruct (SubmitFrame_trace _ _ _ _ _ _ _ Hmark Hrun)
    as (bg & host & Hevs & Hbg & Hhost & _).
  exists bg, host. auto.
Qed.

Lemma SubmitFrame_background_before_placements_witness :
  exists ok e' evs bg host,
    SubmitFrame 2 search_all stale_storage frame_one_overlay
      = Some (ok, e', evs) /\
    evs = BackgroundSave :: bg ++ [BackgroundSubmit] ++ host
                         ++ [BackgroundRestore] /\
    Forall (fun ev => is_background_drawing ev = true) bg /\
    Forall (fun ev => is_placement_call ev = true) host.
Proof.
  destruct (SubmitFrame 2 search_all stale_storage frame_one_overlay)
    as [[[ok e'] evs]|] eqn:Hrun; [|vm_compute in Hrun; discriminate].
  destruct (SubmitFrame_background_before_placements
              2 search_all stale_storage frame_one_overlay e' ok evs)
    as (bg & host & H); [reflexivity | exact Hrun |].
  exists ok, e', evs, bg, host. split; [reflexivity | exact H].
Defined.

(** X8: a [SubmitFrame] that is not a no-op asks the JNI facade to
    display one platform view per entry of the composition order, in
    that order, each at
    the position and size of its [GetViewRect], whether or not anything
    is drawn above the view. *)
Theorem SubmitFrame_places_every_view (kMax : nat)
    (search : RTree -> Sk.Rect -> list Sk.Rect)
    (joined_rect_init : nat -> nat -> Sk.Rect)
    (e e' : AndroidExternalViewEmbedder) (ok : bool) (evs : list Event) :
  should_run_rasterizer_on_platform_thread_ e = false ->
  SubmitFrame kMax search joined_rect_init e = Some (ok, e', evs) ->
  mapM (fun v : Z => (fun r => (v, xywh r)) <$> GetViewRect v e)
       (composition_order_ e) = Some (platform_view_placements evs).
Proof.
  intros Hmark Hrun.
  destruct (SubmitFrame_trace _ _ _ _ _ _ _ Hmark Hrun)
    as (bg & host & Hevs & Hbg & Hhost & _ & Hpv & _).
  destruct (SubmitFrame_trace_readings bg host Hbg Hhost) as (_ & Hr & _).
  cbn zeta in Hr. rewrite Hevs, Hr. exact Hpv.
Qed.

Lemma SubmitFrame_places_every_view_witness :
  exists ok e' evs,
    SubmitFrame 2 search_all stale_storage
      (preroll_all [(7, params_a); (9, params_a)] frame_begun)
      = Some (ok, e', evs) /\
    platform_view_placements evs =
      [(7, (10, 20, 200, 100)%Q); (9, (10, 20, 200, 100)%Q)] /\
    mapM (fun v : Z => (fun r => (v, xywh r)) <$>
            GetViewRect v
              (preroll_all [(7, params_a); (9, params_a)]
                 frame_begun))
         (composition_order_
            (preroll_all [(7, params_a); (9, params_a)]
               frame_begun))
      = Some (platform_view_placements evs).
Proof.
  eexists _, _, _. split; [vm_compute; reflexivity|].
  split; [vm_compute; reflexivity|].
  eapply (SubmitFrame_places_every_view 2 search_all stale_storage).
  - reflexivity.
  - vm_compute. reflexivity.
Defined.

(** X9: when no view id occurs twice in the composition order, the
    overlay surfaces placed by [SubmitFrame] correspond one to one, in
    order, to the rectangles clipped out of the background: each clipped
    rectangle gets one overlay surface at the same position and size,
    and no other overlay surface is placed. *)
Theorem SubmitFrame_overlays_match_clips (kMax : nat)
    (search : RTree -> Sk.Rect -> list Sk.Rect)
    (joined_rect_init : nat -> nat -> Sk.Rect)
    (e e' : AndroidExternalViewEmbedder) (ok : bool) (evs : list Event) :
  NoDup (composition_order_ e) ->
  SubmitFrame kMax search joined_rect_init e = Some (ok, e', evs) ->
  overlay_rect_placements evs = xywh <$> clip_rects evs /\
  length (overlay_placements evs) = length (clip_rects evs).
Proof.
  intros Hnd Hrun.
  destruct (should_run_rasterizer_on_platform_thread_ e) eqn:Hmark.
  - unfold SubmitFrame in Hrun. rewrite Hmark in Hrun.
    injection Hrun as <- <- <-. split; reflexivity.
  - destruct (SubmitFrame_trace _ _ _ _ _ _ _ Hmark Hrun)
      as (bg & host & Hevs & Hbg & Hhost & _ & _ & Hov).
    destruct (SubmitFrame_trace_readings bg host Hbg Hhost)
      as (Hr1 & _ & Hr3 & Hr4).
    cbn zeta in Hr1, Hr3, Hr4. rewrite Hevs, Hr1, Hr3, Hr4.
    apply Hov. exact Hnd.
Qed.

Lemma SubmitFrame_overlays_match_clips_witness :
  exists ok e' evs,
    SubmitFrame 2 search_all empty_storage frame_three_overlays
      = Some (ok, e', evs) /\
    clip_rects evs = [Sk.mkRect 10 20 110 40] /\
    overlay_rect_placements evs = xywh <$> clip_rects evs /\
    length (overlay_placements evs) = length (clip_rects evs).
Proof.
  eexists _, _, _. split; [vm_compute; reflexivity|].
  split; [vm_compute; reflexivity|].
  eapply (SubmitFrame_overlays_match_clips 2 search_all empty_storage
            frame_three_overlays).
  - apply NoDup_singleton.
  - vm_compute. reflexivity.
Defined.

(** X10: the cap bounds the work of a frame.  With [n] entries in the
    composition order, [SubmitFrame] makes [n (n + 1) / 2] occlusion
    queries, each contributes at most [max 1 kMax] rectangles, so at most
    [max 1 kMax * n (n + 1) / 2] rectangles are clipped out of the
    background, however many rectangles the r-tree returns. *)
Theorem SubmitFrame_clip_rects_bounded (kMax : nat)
    (search : RTree -> Sk.Rect -> list Sk.Rect)
    (joined_rect_init : nat -> nat -> Sk.Rect)
    (e e' : AndroidExternalViewEmbedder) (ok : bool) (evs : list Event) :
  SubmitFrame kMax search joined_rect_init e = Some (ok, e', evs) ->
  (2 * length (clip_rects evs)
   <= Nat.max 1 kMax * (length (composition_order_ e)
                        * (length (composition_order_ e) + 1)))%nat.
Proof.
  intros Hrun.
  destruct (should_run_rasterizer_on_platform_thread_ e) eqn:Hmark.
  - unfold SubmitFrame in Hrun. rewrite Hmark in Hrun.
    injection Hrun as <- <- <-. cbn. lia.
  - destruct (SubmitFrame_trace _ _ _ _ _ _ _ Hmark Hrun)
      as (bg & host & Hevs & Hbg & Hhost & Hlen & _).
    destruct (SubmitFrame_trace_readings bg host Hbg Hhost) as (Hr1 & _).
    cbn zeta in Hr1. rewrite Hevs, Hr1. exact Hlen.
Qed.

Lemma SubmitFrame_clip_rects_bounded_witness :
  exists ok e' evs,
    SubmitFrame 2 search_all stale_storage frame_three_overlays
      = Some (ok, e', evs) /\
    (2 * length (clip_rects evs)
     <= Nat.max 1 2 * (length (composition_order_ frame_three_overlays)
                       * (length (composition_order_ frame_three_overlays)
                          + 1)))%nat.
Proof.
  eexists _, _, _. split; [vm_compute; reflexivity|].
  eapply (SubmitFrame_clip_rects_bounded 2 search_all stale_storage
            frame_three_overlays).
  vm_compute. reflexivity.
Defined.

(** ** What the calls keep *)

(** X11: after a preroll the params map holds, for the prerolled view,
    params value-equal to those of the call (the stored copy when it was
    value-equal, the new ones otherwise or when the view had none), and
    the params of every other view are as before; the view's recorder
    and r-tree are replaced by fresh, empty ones, whatever was recorded
    for the view before. *)
Theorem Preroll_stores_params (view_id : Z) (params : EmbeddedViewParams)
    (e : AndroidExternalViewEmbedder) :
  let e' := PrerollCompositeEmbeddedView view_id params e in
  (exists stored,
     view_params_ e' !! view_id = Some stored /\
     Params_equiv stored params /\
     (view_params_ e !! view_id = None -> stored = params) /\
     (forall old, view_params_ e !! view_id = Some old ->
        stored = if EmbeddedViewParams_eqb old params then old else params)) /\
  (forall v : Z, v <> view_id ->
     view_params_ e' !! v = view_params_ e !! v /\
     picture_recorders_ e' !! v = picture_recorders_ e !! v /\
     view_rtrees_ e' !! v = view_rtrees_ e !! v) /\
  picture_recorders_ e' !! view_id
    = Some (mkRecorder (Sk.MakeISize (frame_size_ e)) [] true) /\
  view_rtrees_ e' !! view_id = Some [].
Proof.
  cbn zeta. split; [|split; [|split]].
  - destruct (Preroll_view_params_same view_id params e)
      as (stored & Hstored & Hequiv).
    exists stored. split; [assumption|]. split; [assumption|].
    revert Hstored. unfold PrerollCompositeEmbeddedView. cbn.
    destruct (view_params_ e !! view_id) as [old|] eqn:Hold.
    + destruct (EmbeddedViewParams_eqb old params) eqn:Heq.
      * rewrite Hold. intros [= <-]. split; [discriminate|].
        intros old' [= <-]. rewrite Heq. reflexivity.
      * rewrite lookup_insert_eq. intros [= <-]. split; [discriminate|].
        intros old' [= <-]. rewrite Heq. reflexivity.
    + rewrite lookup_insert_eq. intros [= <-]. split; [reflexivity|].
      discriminate.
  - intros v Hne. split; [apply Preroll_view_params_other; assumption|].
    cbn. rewrite !lookup_insert_ne by congruence. split; reflexivity.
  - cbn. apply lookup_insert_eq.
  - cbn. apply lookup_insert_eq.
Qed.




Lemma step_view_params kMax kD search e op e' (v : Z) :
  step kMax kD search e op = Some e' ->
  (is_Some (view_params_ e' !! v) <->
   is_Some (view_params_ e !! v) \/ v ∈ prerolled_ids [op]).
Proof.
  assert (Hnil : forall P : Prop, P <-> P \/ v ∈ @nil Z).
  { intros P. rewrite elem_of_nil. tauto. }
  destruct op as [size ratio m|view_id params|view_id bounds
                 |m|joined_rect_init|b m|]; cbn [step].
  - intros [= <-]. apply Hnil.
  - intros [= <-]. change (prerolled_ids [OpPreroll view_id params])
      with [view_id]. rewrite list_elem_of_singleton.
    destruct (decide (v = view_id)) as [->|Hne].
    + destruct (Preroll_view_params_same view_id params e) as (s & -> & _).
      split; eauto.
    + rewrite Preroll_view_params_other by assumption. tauto.
  - intros [= <-]. unfold DrawOnCanvas.
    destruct (CompositeEmbeddedView view_id e); apply Hnil.
  - intros [= <-].
    destruct (PostPrerollAction_embedder kD e m) as [-> | ->]; apply Hnil.
  - destruct (SubmitFrame kMax search joined_rect_init e)
      as [[[ok e1] evs]|] eqn:Hrun; [|discriminate].
    intros [= <-].
    apply SubmitFrame_embedder in Hrun as [_ (p & recs & -> & _)].
    apply Hnil.
  - intros [= <-]. rewrite EndFrame_embedder.
    destruct (b && should_run_rasterizer_on_platform_thread_ e); apply Hnil.
  - intros [= <-]. apply Hnil.
Qed.

Lemma run_view_params kMax kD search ops : forall e e' (v : Z),
  run kMax kD search ops e = Some e' ->
  (is_Some (view_params_ e' !! v) <->
   is_Some (view_params_ e !! v) \/ v ∈ prerolled_ids ops).
Proof.
  unfold run. induction ops as [|op ops IH]; intros e e' v.
  - cbn [for_each]. intros [= <-]. cbn. rewrite elem_of_nil. tauto.
  - cbn [for_each].
    destruct (step kMax kD search e op) as [e1|] eqn:Hstep; [|discriminate].
    intros Hrest. rewrite (IH _ _ v Hrest), (step_view_params _ _ _ _ _ _ v Hstep).
    change (op :: ops) with ([op] ++ ops).
    unfold prerolled_ids. rewrite omap_app, elem_of_app. tauto.
Qed.

(** X13: stored params are never removed.  After any sequence of calls
    on a new embedder, [GetViewRect] answers for a view id exactly when
    the view was prerolled at some point of the sequence, in the current
    frame or in an earlier one; it is fatal only for a view id that was
    never prerolled since construction. *)
Theorem GetViewRect_fatal_iff_never_prerolled (kMax : nat) (kD : Z)
    (search : RTree -> Sk.Rect -> list Sk.Rect) (ops : list Op)
    (e : AndroidExternalViewEmbedder) (view_id : Z) :
  run kMax kD search ops AndroidExternalViewEmbedder_new = Some e ->
  (GetViewRect view_id e = None <-> view_id ∉ prerolled_ids ops).
Proof.
  intros Hrun. pose proof (run_view_params _ _ _ _ _ _ view_id Hrun) as Hdom.
  cbn in Hdom. rewrite lookup_empty in Hdom.
  unfold GetViewRect.
  destruct (view_params_ e !! view_id) as [p|].
  - split; [discriminate|]. intros Hnot. exfalso.
    destruct (proj1 Hdom) as [[x Hx]|Hin]; [eauto | discriminate | auto].
  - split; [|reflexivity]. intros _ Hin.
    destruct (proj2 Hdom) as [x Hx]; [auto | discriminate].
Qed.

Lemma GetViewRect_fatal_iff_never_prerolled_witness :
  exists e,
    run 2 10 search_all
      [OpBeginFrame (Sk.mkISize 800 600) 2 merger_merged;
       OpPreroll 7 params_a;
       OpEndFrame false merger_merged;
       OpBeginFrame (Sk.mkISize 800 600) 3 merger_merged;
       OpPreroll 9 params_a]
      AndroidExternalViewEmbedder_new = Some e /\
    GetViewRect 7 e = Some (Sk.mkRect 10 20 310 170) /\
    (GetViewRect 8 e = None <->
     8 ∉ prerolled_ids
           [OpBeginFrame (Sk.mkISize 800 600) 2 merger_merged;
            OpPreroll 7 params_a;
            OpEndFrame false merger_merged;
            OpBeginFrame (Sk.mkISize 800 600) 3 merger_merged;
            OpPreroll 9 params_a]).
Proof.
  eexists. split; [vm_compute; reflexivity|].
  split; [vm_compute; reflexivity|].
  eapply (GetViewRect_fatal_iff_never_prerolled 2 10 search_all).
  vm_compute. reflexivity.
Defined.

(** ** The loops of [SubmitFrame] and the indices of the source *)

Lemma with_countdown_fst {A} (l : list A) :
  (with_countdown l).*1 = reverse (seq 0 (length l)).
Proof.
  induction l as [|a l IH]; [reflexivity|].
  cbn [with_countdown length fmap list_fmap fst]. rewrite seq_S, reverse_snoc.
  cbn [Nat.add]. f_equal. exact IH.
Qed.

Lemma mapM_countdown {B} (q : nat -> Z -> option B) (order : list Z)
    (jcs : list (nat * Z)) :
  Forall (fun jc : nat * Z => order !! jc.1 = Some jc.2) jcs ->
  mapM (fun j : nat => c ← order !! j; q j c) jcs.*1 =
  mapM (fun jc : nat * Z => q jc.1 jc.2) jcs.
Proof.
  induction 1 as [|[j c] jcs Hj _ IH]; [reflexivity|].
  cbn in *. rewrite Hj. cbn. rewrite IH. reflexivity.
Qed.

Section SubmitFrameByIndex.

Variable kMax : nat.
Variable search : RTree -> Sk.Rect -> list Sk.Rect.
Variable joined_rect_init : nat -> nat -> Sk.Rect.
Variable e : AndroidExternalViewEmbedder.

Local Abbreviation rounded := (fun r0 => Sk.MakeIRect (Sk.roundOut r0)).

Lemma place_loop_events (view_id : Z) rs st st' :
  for_each (place_intersection_rect view_id) rs st = Some st' ->
  events st' = events st ++ (BackgroundClipRectDifference <$> (rounded <$> rs)).
Proof. intros H. apply place_loop_extends in H. apply H. Qed.

Lemma occlusion_loop_exact (i : nat) (view_id : Z) rtree
    (jcs : list (nat * Z)) : forall st st',
  for_each (fun s (jc : nat * Z) =>
              occlusion_step kMax search e (joined_rect_init i jc.1)
                             view_id rtree s jc.2)
           jcs st = Some st' ->
  exists results,
    mapM (fun jc : nat * Z =>
            occlusion_query kMax search e (joined_rect_init i jc.1)
                            rtree jc.2) jcs
      = Some results /\
    events st' =
      events st ++ (BackgroundClipRectDifference <$>
                      (rounded <$> concat results)).
Proof.
  induction jcs as [|[j c] jcs IH]; intros st st'.
  - cbn [for_each]. intros [= <-]. exists []. cbn. rewrite app_nil_r. auto.
  - cbn [for_each fst snd]. unfold occlusion_step at 1.
    destruct (occlusion_query kMax search e (joined_rect_init i j) rtree c)
      as [rs|] eqn:Hquery; [|discriminate].
    destruct (for_each (place_intersection_rect view_id) rs st)
      as [s1|] eqn:Hplace; [|discriminate].
    intros Hrest. destruct (IH s1 st' Hrest) as (results & Hall & Hev).
    exists (rs :: results). split.
    + cbn. rewrite Hquery. cbn. rewrite Hall. reflexivity.
    + rewrite Hev, (place_loop_events _ _ _ _ Hplace).
      cbn [concat]. rewrite !fmap_app, <- app_assoc. reflexivity.
Qed.

Lemma composite_slot_exact earlier_rev (view_id : Z) st st' :
  composite_slot kMax search e joined_rect_init earlier_rev view_id st
    = Some st' ->
  exists rtree results,
    view_rtrees_ e !! view_id = Some rtree /\
    mapM (fun jc : nat * Z =>
            occlusion_query kMax search e
              (joined_rect_init (length earlier_rev) jc.1) rtree jc.2)
         (with_countdown (view_id :: earlier_rev)) = Some results /\
    clip_rects (events st') =
      clip_rects (events st) ++ (rounded <$> concat results).
Proof.
  unfold composite_slot.
  destruct (recorders st !! view_id) as [recorder|]; [|discriminate].
  destruct (finishRecordingAsPicture recorder) as [[picture|] recorder'];
    [|discriminate].
  destruct (view_rtrees_ e !! view_id) as [rtree|]; [|discriminate].
  match goal with
  | |- context [for_each ?body ?l ?s] =>
      destruct (for_each body l s) as [st2|] eqn:Hloop; [|discriminate]
  end.
  destruct (pictures st2 !! view_id) as [p|]; [|discriminate].
  intros [= <-]. apply occlusion_loop_exact in Hloop as (results & Hall & Hev).
  exists rtree, results. split; [reflexivity|]. split; [exact Hall|].
  cbn [emit events] in Hev |- *.
  rewrite Hev, !clip_rects_app, clip_rects_clips.
  change (clip_rects [BackgroundDrawPicture p]) with (@nil Sk.Rect).
  rewrite app_nil_r. reflexivity.
Qed.

Lemma composite_slots_exact todo : forall done st st',
  composition_order_ e = done ++ todo ->
  composite_slots kMax search e joined_rect_init (reverse done) todo st
    = Some st' ->
  exists slots,
    mapM (slot_clip_rects kMax search joined_rect_init e)
         (seq (length done) (length todo)) = Some slots /\
    clip_rects (events st') = clip_rects (events st) ++ concat slots.
Proof.
  induction todo as [|view_id todo IH]; intros done st st' Horder.
  - cbn [composite_slots]. intros [= <-]. exists []. cbn.
    rewrite app_nil_r. auto.
  - cbn [composite_slots].
    destruct (composite_slot kMax search e joined_rect_init (reverse done)
                view_id st) as [s1|] eqn:Hslot; [|discriminate].
    intros Hrest.
    apply composite_slot_exact in Hslot
      as (rtree & results & Hrtree & Hall & Hev1).
    rewrite length_reverse in Hall.
    destruct (IH (done ++ [view_id]) s1 st') as (slots & Hslots & Hev).
    { rewrite <- app_assoc. exact Horder. }
    { rewrite reverse_snoc. exact Hrest. }
    exists ((rounded <$> concat results) :: slots). split.
    + cbn [seq length]. cbn [mapM].
      assert (Hthis : slot_clip_rects kMax search joined_rect_init e
                        (length done) = Some (rounded <$> concat results)).
      { destruct (slot_countdown (composition_order_ e) (reverse done)
                    todo view_id) as [Hi Hjs].
        { rewrite reverse_involutive. exact Horder. }
        rewrite length_reverse in Hi.
        assert (Hidx : (with_countdown (view_id :: reverse done)).*1
                       = reverse (seq 0 (S (length done)))).
        { rewrite with_countdown_fst. cbn [length].
          rewrite length_reverse. reflexivity. }
        unfold slot_clip_rects. rewrite Hi. cbn [mbind option_bind].
        rewrite Hrtree. cbn [mbind option_bind].
        rewrite <- Hidx.
        rewrite (mapM_countdown
                   (fun j c => occlusion_query kMax search e
                                 (joined_rect_init (length done) j) rtree c)).
        - rewrite Hall. reflexivity.
        - eapply Forall_impl; [exact Hjs|]. intros jc [H _]. exact H. }
      rewrite Hthis. cbn.
      rewrite length_app, Nat.add_1_r in Hslots. rewrite Hslots. reflexivity.
    + rewrite Hev, Hev1. cbn [concat]. rewrite app_assoc. reflexivity.
Qed.

End SubmitFrameByIndex.

(** X14: the loops of [SubmitFrame] make the queries the source indexes.
    The rectangles clipped out of the background are, for
    [i = 0, ..., size - 1] in this order and for each [i] for
    [j = i, ..., 0] in this order, the capped and outward rounded results
    of querying the r-tree of [composition_order_[i]] with the view
    rectangle of [composition_order_[j]], each query starting its
    [joined_rect] from the content of its own storage; nothing else is
    clipped. *)
Theorem SubmitFrame_clip_rects_by_index (kMax : nat)
    (search : RTree -> Sk.Rect -> list Sk.Rect)
    (joined_rect_init : nat -> nat -> Sk.Rect)
    (e e' : AndroidExternalViewEmbedder) (ok : bool) (evs : list Event) :
  should_run_rasterizer_on_platform_thread_ e = false ->
  SubmitFrame kMax search joined_rect_init e = Some (ok, e', evs) ->
  frame_clip_rects kMax search joined_rect_init e = Some (clip_rects evs).
Proof.
  intros Hmark. unfold SubmitFrame. rewrite Hmark.
  destruct (composite_slots _ _ _ _ _ _ _) as [st1|] eqn:Hphase1;
    [|discriminate].
  destruct (for_each _ _ _) as [st3|] eqn:Hphase2; [|discriminate].
  intros [= _ _ <-].
  apply place_views_effect in Hphase2 as (host & Hev3 & Hhost & _).
  apply (composite_slots_exact kMax search joined_rect_init e
           (composition_order_ e) []) in Hphase1 as (slots & Hslots & Hclips);
    [|reflexivity].
  cbn in Hev3, Hclips, Hslots.
  unfold frame_clip_rects. rewrite Hslots. cbn.
  rewrite Hev3, !clip_rects_app, Hclips, (clip_rects_placement host Hhost).
  cbn. rewrite !app_nil_r. reflexivity.
Qed.

Lemma SubmitFrame_clip_rects_by_index_witness :
  exists ok e' evs,
    SubmitFrame 2 search_all
      (fun i j => Sk.mkRect 0 0 (inject_Z (Z.of_nat (100 + 10 * i + j))) 50)
      (foldl (fun e r => DrawOnCanvas 9 r e)
         (preroll_all [(7, params_a); (9, params_a)] frame_begun)
         three_rects)
      = Some (ok, e', evs) /\
    clip_rects evs = [Sk.mkRect 0 0 111 50; Sk.mkRect 0 0 110 50] /\
    frame_clip_rects 2 search_all
      (fun i j => Sk.mkRect 0 0 (inject_Z (Z.of_nat (100 + 10 * i + j))) 50)
      (foldl (fun e r => DrawOnCanvas 9 r e)
         (preroll_all [(7, params_a); (9, params_a)] frame_begun)
         three_rects)
      = Some (clip_rects evs).
Proof.
  eexists _, _, _. split; [vm_compute; reflexivity|].
  split; [vm_compute; reflexivity|].
  eapply (SubmitFrame_clip_rects_by_index 2 search_all).
  - reflexivity.
  - vm_compute. reflexivity.
Defined.
(** ** The collapsed rectangle covers what it replaces *)

Lemma foldl_join_contains init rs r :
  r ∈ rs -> Sk.isEmpty r = false ->
  Sk.contains (foldl Sk.join init rs) r.
Proof.
  intros Hin Hne.
  destruct (Sk.isEmpty init) eqn:Hinit.
  - destruct (foldl_join_invariant rs init []) as [[_ Hall]|[_ [Hub _]]].
    + left. split; [assumption|]. intros x Hx.
      apply elem_of_nil in Hx. contradiction.
    + cbn in Hall. rewrite (Hall r Hin) in Hne. discriminate.
    + apply Hub; assumption.
  - destruct (foldl_join_invariant rs init [init]) as [[_ Hall]|[_ [Hub _]]].
    + right. split; [assumption|]. split.
      * intros x Hx _. apply list_elem_of_singleton in Hx. subst x.
        apply contains_refl.
      * intros b Hb. apply Hb; [apply list_elem_of_here | assumption].
    + rewrite (Hall r) in Hne; [discriminate|].
      apply list_elem_of_further. assumption.
    + apply Hub; [|assumption]. apply list_elem_of_further. assumption.
Qed.

Lemma saturate2int_floor_below (q x : Q) :
  (inject_Z (- Sk.SK_MaxS32FitsInFloat) <= x)%Q -> (q <= x)%Q ->
  (inject_Z (Sk.saturate2int (Qfloor q)) <= x)%Q.
Proof.
  intros Hlow Hq. unfold Sk.saturate2int.
  destruct (Z.max_spec (- Sk.SK_MaxS32FitsInFloat)
              (Z.min Sk.SK_MaxS32FitsInFloat (Qfloor q))) as [[_ ->]|[_ ->]];
    [|exact Hlow].
  apply Qle_trans with (inject_Z (Qfloor q)).
  - rewrite <- Zle_Qle. apply Z.le_min_r.
  - apply Qle_trans with q; [apply Qfloor_le | exact Hq].
Qed.

Lemma saturate2int_ceiling_above (q x : Q) :
  (x <= inject_Z Sk.SK_MaxS32FitsInFloat)%Q -> (x <= q)%Q ->
  (x <= inject_Z (Sk.saturate2int (Qceiling q)))%Q.
Proof.
  intros Hhigh Hq. unfold Sk.saturate2int.
  destruct (Z.max_spec (- Sk.SK_MaxS32FitsInFloat)
              (Z.min Sk.SK_MaxS32FitsInFloat (Qceiling q)))
    as [[_ ->]|[Hle ->]].
  - destruct (Z.min_spec Sk.SK_MaxS32FitsInFloat (Qceiling q))
      as [[_ ->]|[_ ->]]; [exact Hhigh|].
    apply Qle_trans with q; [exact Hq | apply Qle_ceiling].
  - apply Qle_trans with (inject_Z (Z.min Sk.SK_MaxS32FitsInFloat (Qceiling q))).
    + destruct (Z.min_spec Sk.SK_MaxS32FitsInFloat (Qceiling q))
        as [[_ ->]|[_ ->]]; [exact Hhigh|].
      apply Qle_trans with q; [exact Hq | apply Qle_ceiling].
    + rewrite <- Zle_Qle. exact Hle.
Qed.

(** Rounding outward keeps what the rectangle contained, within the
    range of [int]. *)
Lemma roundOut_keeps_contained (outer inner : Sk.Rect) :
  Sk.contains outer inner -> Sk.fits_int inner ->
  Sk.contains (Sk.MakeIRect (Sk.roundOut outer)) inner.
Proof.
  intros (Hl & Ht & Hr & Hb) (Fl & Ft & Fr & Fb). unfold Sk.contains. cbn.
  repeat split;
    first [apply saturate2int_floor_below | apply saturate2int_ceiling_above];
    assumption.
Qed.

(** X15: when an occlusion query returns more rectangles than the cap,
    the single rectangle that replaces them contains every non-empty
    rectangle the query returned, whatever the storage of [joined_rect]
    held; the rounded rectangle that is clipped and placed contains each
    of them whose edges lie within the range that [roundOut] keeps. *)
Theorem collapsed_rect_covers_results (kMax : nat)
    (search : RTree -> Sk.Rect -> list Sk.Rect) (joined_rect_init : Sk.Rect)
    (e : AndroidExternalViewEmbedder) (rtree : RTree)
    (current_view_id : Z) (view_rect : Sk.Rect) :
  GetViewRect current_view_id e = Some view_rect ->
  (kMax < length (search rtree view_rect))%nat ->
  exists joined,
    occlusion_query kMax search e joined_rect_init rtree current_view_id
      = Some [joined] /\
    forall r, r ∈ search rtree view_rect -> Sk.isEmpty r = false ->
      Sk.contains joined r /\
      (Sk.fits_int r -> Sk.contains (Sk.MakeIRect (Sk.roundOut joined)) r).
Proof.
  intros Hrect Hcap. eexists. split.
  - apply occlusion_query_over_cap; eassumption.
  - intros r Hin Hne.
    pose proof (foldl_join_contains joined_rect_init _ r Hin Hne) as Hc.
    split; [exact Hc|].
    intros Hfits. apply roundOut_keeps_contained; assumption.
Qed.

Lemma collapsed_rect_covers_results_witness :
  exists joined,
    occlusion_query 2 search_all frame_three_overlays stale_rect
      three_rects 7 = Some [joined] /\
    forall r, r ∈ search_all three_rects (Sk.mkRect 10 20 210 120) ->
      Sk.isEmpty r = false ->
      Sk.contains joined r /\
      (Sk.fits_int r -> Sk.contains (Sk.MakeIRect (Sk.roundOut joined)) r).
Proof.
  apply (collapsed_rect_covers_results 2 search_all stale_rect
           frame_three_overlays three_rects 7 (Sk.mkRect 10 20 210 120)).
  - reflexivity.
  - cbn. lia.
Defined.

(** ** A resubmitted frame *)

Lemma mapM_placement_ids (e : AndroidExternalViewEmbedder) (views : list Z)
    (placements : list (Z * (Q * Q * Q * Q))) :
  mapM (fun v : Z => (fun r => (v, xywh r)) <$> GetViewRect v e) views
    = Some placements ->
  placements.*1 = views.
Proof.
  intros H. apply mapM_Some_1 in H.
  induction H as [|v pl views placements Hv _ IH]; [reflexivity|].
  destruct (GetViewRect v e) as [r|]; [|discriminate].
  injection Hv as <-. cbn. f_equal. exact IH.
Qed.

Lemma preroll_all_mark calls e :
  should_run_rasterizer_on_platform_thread_ (preroll_all calls e) =
  should_run_rasterizer_on_platform_thread_ e.
Proof.
  induction calls as [|[v p] calls IH] using rev_ind; [reflexivity|].
  rewrite preroll_all_snoc. cbn. exact IH.
Qed.

(** X16: the resubmission protocol end to end.  A frame with at least
    one platform view that meets unmerged threads is not placed:
    [PostPrerollAction] returns [kResubmitFrame] and the frame's
    [SubmitFrame] issues no call.  After [EndFrame(true, ...)] the same
    preroll calls, each for a view id of its own, are submitted normally
    in a new frame: [SubmitFrame] returns and places the platform views
    of the calls, in call order. *)
Theorem resubmitted_frame_is_placed (kMax : nat) (kD : Z)
    (search : RTree -> Sk.Rect -> list Sk.Rect)
    (joined_rect_init : nat -> nat -> Sk.Rect)
    (size : Sk.ISize) (ratio : Q)
    (e0 : AndroidExternalViewEmbedder) (m0 m m3 : RasterThreadMerger)
    (calls : list (Z * EmbeddedViewParams)) :
  calls <> [] -> NoDup calls.*1 -> is_merged m = false ->
  let e1 := preroll_all calls (BeginFrame size ratio e0 m0).1.1 in
  let e2 := (PostPrerollAction kD e1 m).1.2 in
  let e3 := (EndFrame kD true e2 (PostPrerollAction kD e1 m).2).1.1 in
  let e4 := preroll_all calls (BeginFrame size ratio e3 m3).1.1 in
  (PostPrerollAction kD e1 m).1.1 = kResubmitFrame /\
  SubmitFrame kMax search joined_rect_init e2 = Some (true, e2, []) /\
  exists e5 evs,
    SubmitFrame kMax search joined_rect_init e4 = Some (true, e5, evs) /\
    (platform_view_placements evs).*1 = calls.*1.
Proof.
  intros Hcalls Hnodup Hm e1 e2 e3 e4.
  assert (Horder1 : composition_order_ e1 <> []).
  { unfold e1. rewrite preroll_all_composition_order. cbn.
    destruct calls; [congruence | discriminate]. }
  assert (Hppa : PostPrerollAction kD e1 m =
                 (kResubmitFrame, CancelFrame (with_should_run true e1),
                  logged CallIsMerged m))
    by (apply PostPrerollAction_unmerged; assumption).
  assert (Hmark4 : should_run_rasterizer_on_platform_thread_ e4 = false).
  { unfold e4. rewrite preroll_all_mark.
    change (should_run_rasterizer_on_platform_thread_ e3 = false).
    unfold e3. rewrite EndFrame_embedder. cbn.
    destruct (should_run_rasterizer_on_platform_thread_ e2) eqn:Hmark2;
      cbn; [reflexivity | exact Hmark2]. }
  split; [rewrite Hppa; reflexivity|]. split.
  - unfold e2. rewrite Hppa. reflexivity.
  - destruct (SubmitFrame_total kMax search joined_rect_init e4)
      as (e5 & evs & Hrun);
      [apply slots_present_frame; exact Hnodup|].
    exists e5, evs. split; [exact Hrun|].
    destruct (SubmitFrame_trace _ _ _ _ _ _ _ Hmark4 Hrun)
      as (bg & host & Hevs & Hbg & Hhost & _ & Hpv & _).
    destruct (SubmitFrame_trace_readings bg host Hbg Hhost) as (_ & Hr & _).
    cbn zeta in Hr. rewrite Hevs, Hr.
    rewrite (mapM_placement_ids _ _ _ Hpv).
    unfold e4. rewrite preroll_all_composition_order. reflexivity.
Qed.

Lemma resubmitted_frame_is_placed_witness :
  let calls := [(7, params_a); (9, params_a')] in
  let e1 := preroll_all calls
              (BeginFrame (Sk.mkISize 800 600) 2 AndroidExternalViewEmbedder_new
                          merger_unmerged).1.1 in
  let e2 := (PostPrerollAction 10 e1 merger_unmerged).1.2 in
  let e3 := (EndFrame 10 true e2 (PostPrerollAction 10 e1 merger_unmerged).2).1.1 in
  let e4 := preroll_all calls
              (BeginFrame (Sk.mkISize 800 600) 2 e3 merger_merged).1.1 in
  (PostPrerollAction 10 e1 merger_unmerged).1.1 = kResubmitFrame /\
  SubmitFrame 2 search_all stale_storage e2 = Some (true, e2, []) /\
  exists e5 evs,
    SubmitFrame 2 search_all stale_storage e4 = Some (true, e5, evs) /\
    (platform_view_placements evs).*1 = calls.*1.
Proof.
  apply (resubmitted_frame_is_placed 2 10 search_all stale_storage
           (Sk.mkISize 800 600) 2 AndroidExternalViewEmbedder_new
           merger_unmerged merger_unmerged merger_merged
           [(7, params_a); (9, params_a')]).
  - discriminate.
  - cbn. apply NoDup_cons. split; [|apply NoDup_singleton].
    intros Hin. apply list_elem_of_singleton in Hin. discriminate.
  - reflexivity.
Defined.
